(** * arXiv paper summarizer (src/App.tsx): URL validation, identifier
      extraction and the submit life cycle.

    The component [App] keeps four pieces of React state ([url], [loading],
    [error], [paperData]) and has three functions of interest:
    [validateArxivUrl], [extractArxivId] and the asynchronous [handleSubmit].
    They are embedded below as executable definitions:

    - JavaScript strings are sequences of UTF-16 code units ([list N]);
    - the regular expression literal is a value of an abstract syntax, run by
      a backtracking matcher with the priorities of ECMAScript (leftmost
      start, greedy quantifiers, first alternative first);
    - [handleSubmit] is a resumption: it either settles at once or suspends
      at its single [await] with a continuation for the settled promise. *)

From Stdlib Require Import Ascii String List NArith Bool Arith Lia.
Import ListNotations.

Set Implicit Arguments.

(** ** JavaScript strings *)

Definition char16 := N.
Definition jsstring := list char16.

(** A string literal of the source (all of them are ASCII). *)
Definition lit (s : string) : jsstring :=
  map N_of_ascii (list_ascii_of_string s).

Definition char16_eqb (a b : char16) : bool := N.eqb a b.

(** [\d] without the unicode flag: the ten ASCII digits. *)
Definition is_digit (c : char16) : bool :=
  (N.leb 48 c && N.leb c 57)%bool.

(** WhiteSpace and LineTerminator code points of ECMAScript, the ones
    [String.prototype.trim] strips. *)
Definition is_white_space (c : char16) : bool :=
  (N.eqb c 9 || N.eqb c 10 || N.eqb c 11 || N.eqb c 12 || N.eqb c 13
   || N.eqb c 32 || N.eqb c 160 || N.eqb c 5760
   || (N.leb 8192 c && N.leb c 8202)
   || N.eqb c 8232 || N.eqb c 8233 || N.eqb c 8239 || N.eqb c 8287
   || N.eqb c 12288 || N.eqb c 65279)%bool.

Fixpoint trimStart (s : jsstring) : jsstring :=
  match s with
  | [] => []
  | c :: s' => if is_white_space c then trimStart s' else s
  end.

Definition trimEnd (s : jsstring) : jsstring := rev (trimStart (rev s)).

Definition trim (s : jsstring) : jsstring := trimEnd (trimStart s).

(** Truthiness of a string: only the empty string is falsy. *)
Definition truthy (s : jsstring) : bool :=
  match s with [] => false | _ :: _ => true end.

(** ** Regular expressions *)

Module RegExp.

(** The fragment of the pattern syntax the source uses. *)
Inductive regex : Type :=
| Str (s : jsstring)            (* a run of literal characters *)
| Digit                         (* \d *)
| Cat (r1 r2 : regex)           (* r1r2 *)
| Or (r1 r2 : regex)            (* r1|r2 *)
| Opt (r : regex)               (* (?:r)? , greedy *)
| Plus (r : regex)              (* r+ , greedy *)
| Group (i : nat) (r : regex).  (* the i-th capturing group (r) *)

Definition captures := nat -> option jsstring.

Definition no_captures : captures := fun _ => None.

Definition set_capture (i : nat) (v : jsstring) (c : captures) : captures :=
  fun j => if Nat.eqb j i then Some v else c j.

(** [strip p s] removes the literal prefix [p] from [s]. *)
Fixpoint strip (p s : jsstring) : option jsstring :=
  match p with
  | [] => Some s
  | a :: p' =>
      match s with
      | [] => None
      | b :: s' => if char16_eqb a b then strip p' s' else None
      end
  end.

(** What was consumed between the input [s] and its suffix [s']. *)
Definition consumed (s s' : jsstring) : jsstring :=
  firstn (length s - length s') s.

Definition orelse {A} (x : option A) (y : option A) : option A :=
  match x with Some _ => x | None => y end.

Section Matcher.
Variable R : Type.

Definition cont := jsstring -> captures -> option R.

(** Further iterations of a greedy quantifier whose body is matched by
    [body]: as many as possible, then the continuation.  An iteration that
    consumes nothing is rejected (the empty check of RepeatMatcher), so the
    length of the input bounds the number of iterations. *)
Fixpoint more (body : jsstring -> captures -> cont -> option R) (k : cont)
  (fuel : nat) (s : jsstring) (c : captures) : option R :=
  match fuel with
  | O => k s c
  | S fuel' =>
      orelse
        (body s c (fun s' c' =>
           if Nat.ltb (length s') (length s)
           then more body k fuel' s' c' else None))
        (k s c)
  end.

(** The matcher of a pattern takes the rest of the input, the captures so
    far and a continuation for what follows the pattern; choice points try
    their alternatives in priority order and keep the first that lets the
    continuation succeed. *)
Fixpoint m (r : regex) (s : jsstring) (c : captures) (k : cont)
  {struct r} : option R :=
  match r with
  | Str p =>
      match strip p s with
      | Some s' => k s' c
      | None => None
      end
  | Digit =>
      match s with
      | a :: s' => if is_digit a then k s' c else None
      | [] => None
      end
  | Cat r1 r2 => m r1 s c (fun s' c' => m r2 s' c' k)
  | Or r1 r2 => orelse (m r1 s c k) (m r2 s c k)
  | Opt r1 => orelse (m r1 s c k) (k s c)
  | Plus r1 =>
      (* one mandatory iteration, then the further ones *)
      m r1 s c (fun s' c' => more (m r1) k (length s') s' c')
  | Group i r1 =>
      m r1 s c (fun s' c' => k s' (set_capture i (consumed s s') c'))
  end.

End Matcher.

(** [RegExp.prototype.exec] for a pattern without flags: the matcher is
    tried at index 0, 1, ... up to the length of the input; the first index
    at which it succeeds gives the match.  Group 0 is the whole match. *)
Fixpoint exec (r : regex) (s : jsstring) : option captures :=
  match m (Group 0 r) s no_captures (fun _ c => Some c) with
  | Some c => Some c
  | None =>
      match s with
      | [] => None
      | _ :: s' => exec r s'
      end
  end.

(** [RegExp.prototype.test]. *)
Definition test (r : regex) (s : jsstring) : bool :=
  match exec r s with Some _ => true | None => false end.

(** The language of a pattern, independent of any matching strategy: the
    strings the pattern describes. *)
Inductive in_lang : regex -> jsstring -> Prop :=
| L_Str p : in_lang (Str p) p
| L_Digit a : is_digit a = true -> in_lang Digit [a]
| L_Cat r1 r2 s1 s2 :
    in_lang r1 s1 -> in_lang r2 s2 -> in_lang (Cat r1 r2) (s1 ++ s2)
| L_OrL r1 r2 s : in_lang r1 s -> in_lang (Or r1 r2) s
| L_OrR r1 r2 s : in_lang r2 s -> in_lang (Or r1 r2) s
| L_OptNone r : in_lang (Opt r) []
| L_OptSome r s : in_lang r s -> in_lang (Opt r) s
| L_PlusOne r s : in_lang r s -> in_lang (Plus r) s
| L_PlusMore r s1 s2 :
    in_lang r s1 -> in_lang (Plus r) s2 -> in_lang (Plus r) (s1 ++ s2)
| L_Group i r s : in_lang r s -> in_lang (Group i r) s.

End RegExp.

Import RegExp.

(** ** The component *)

(** /(?:https?:\/\/)?(?:www\.)?arxiv\.org\/(?:abs|pdf)\/(\d+(?:\.\d+)?(?:v\d+)?)/ *)
Definition idRegex : regex :=
  Cat (Plus Digit)
      (Cat (Opt (Cat (Str (lit ".")) (Plus Digit)))
           (Opt (Cat (Str (lit "v")) (Plus Digit)))).

Definition schemeRegex : regex :=
  Cat (Str (lit "http")) (Cat (Opt (Str (lit "s"))) (Str (lit "://"))).

Definition locationRegex : regex :=
  Cat (Opt schemeRegex)
      (Cat (Opt (Str (lit "www.")))
           (Cat (Str (lit "arxiv.org/"))
                (Cat (Or (Str (lit "abs")) (Str (lit "pdf")))
                     (Str (lit "/"))))).

Definition arxivRegex : regex := Cat locationRegex (Group 1 idRegex).

Definition validateArxivUrl (url : jsstring) : bool :=
  test arxivRegex url.

(** [match ? match[1] : ''].  Group 1 takes part in every match of
    [arxivRegex] (lemma [exec_arxiv_group] below), so the [None] branch of
    the inner match, where JavaScript would give [undefined], is never
    taken. *)
Definition extractArxivId (url : jsstring) : jsstring :=
  match exec arxivRegex url with
  | Some c => match c 1 with Some g => g | None => [] end
  | None => []
  end.


(** ** The data of the component *)

Module Paper.

(** [interface PaperMetadata]. *)
Record Metadata : Type := {
  title : jsstring;
  authors : list jsstring;
  abstract : jsstring;
  url : jsstring;
  published_date : jsstring
}.

(** The type argument of [useState] for [paperData]. *)
Record Data : Type := {
  metadata : Metadata;
  summary : jsstring
}.

End Paper.

Module Response.

(** [interface SummaryResponse]; the three fields of [data] are optional.
    Values are taken at their declared type: [success] and [data] are
    always there. *)
Record data_t : Type := {
  metadata : option Paper.Metadata;
  summary : option jsstring;
  error : option jsstring
}.

Record t : Type := {
  success : bool;
  data : data_t
}.

End Response.

(** The four [useState] cells of [App]. *)
Record AppState : Type := {
  url : jsstring;
  loading : bool;
  error : jsstring;
  paperData : option Paper.Data
}.

Definition setUrl (v : jsstring) (s : AppState) : AppState :=
  {| url := v; loading := loading s; error := error s;
     paperData := paperData s |}.

Definition setLoading (v : bool) (s : AppState) : AppState :=
  {| url := url s; loading := v; error := error s;
     paperData := paperData s |}.

Definition setError (v : jsstring) (s : AppState) : AppState :=
  {| url := url s; loading := loading s; error := v;
     paperData := paperData s |}.

Definition setPaperData (v : option Paper.Data) (s : AppState) : AppState :=
  {| url := url s; loading := loading s; error := error s;
     paperData := v |}.

(** [useState('')], [useState(false)], [useState('')], [useState(null)]. *)
Definition initialState : AppState :=
  {| url := []; loading := false; error := []; paperData := None |}.

(** What [handleSubmit] does to the world outside the component state. *)
Inductive Event : Type :=
| CallAIAgent (message agent_id : jsstring)
| ToastSuccess (text : jsstring).

(** How the promise of [callAIAgent] settles: fulfilled with a response
    whose [response] field is the raw payload, or rejected.  Anything thrown
    while the payload is fetched counts as a rejection: all of it happens
    inside the [try] block. *)
Inductive Outcome : Type :=
| Fulfilled (payload : jsstring)
| Rejected.

(** An asynchronous function with at most one [await]: it returns at once,
    or suspends in a state with a request and resumes when the request has
    settled. *)
Inductive Task : Type :=
| Return (s : AppState)
| Await (s : AppState) (message agent_id : jsstring)
        (resume : Outcome -> AppState * list Event).

Definition agentId : jsstring := lit "68f24d4e811f17edf77d460e".

Definition parseFallback : Response.t :=
  {| Response.success := false;
     Response.data :=
       {| Response.metadata := None;
          Response.summary := None;
          Response.error := Some (lit "Failed to parse response") |} |}.

Section Component.

(** The strict or repairing reading of a payload as a [SummaryResponse],
    [None] when there is none. *)
Variable parse : jsstring -> option Response.t.

(** Modelled from the spec: [parseLLMJson] of [@/utils/jsonParser], which is
    not among the sources.  It returns the best-effort parsed value of the
    expected shape, or the caller-supplied fallback if parsing is impossible,
    and never raises. *)
Definition parseLLMJson (payload : jsstring) (fallback : Response.t)
  : Response.t :=
  match parse payload with
  | Some v => v
  | None => fallback
  end.

(** The body of the [try] block after the [await], its [catch] and its
    [finally].  In the test of the [if] a [metadata] object is truthy when
    it is there, a [summary] string when it is there and not empty; the same
    goes for [error] on the left of [||]. *)
Definition afterAwait (s : AppState) (o : Outcome) : AppState * list Event :=
  let '(s1, log) :=
    match o with
    | Fulfilled payload =>
        let result := parseLLMJson payload parseFallback in
        match Response.success result,
              Response.metadata (Response.data result),
              Response.summary (Response.data result) with
        | true, Some md, Some (c :: sm) =>
            (setPaperData
               (Some {| Paper.metadata := md; Paper.summary := c :: sm |}) s,
             [ToastSuccess (lit "Paper summarized successfully")])
        | _, _, _ =>
            (setError
               (match Response.error (Response.data result) with
                | Some (c :: e) => c :: e
                | _ => lit "Failed to summarize paper"
                end) s,
             [])
        end
    | Rejected =>
        (setError
           (lit "An error occurred while processing the paper. Please try again.")
           s,
         [])
    end in
  (setLoading false s1, log).

(** [handleSubmit], started in the state [s0] the component was rendered
    with.  [e.preventDefault()] only concerns the browser's form and is left
    out.  The setters are applied in the order of the source. *)
Definition handleSubmit (s0 : AppState) : Task :=
  let s := setPaperData None (setError [] s0) in
  if negb (truthy (trim (url s0))) then
    Return (setError (lit "Please enter an arXiv URL") s)
  else if negb (validateArxivUrl (url s0)) then
    Return
      (setError
         (lit "Please enter a valid arXiv URL (e.g., https://arxiv.org/abs/1234.56789)")
         s)
  else
    let s := setLoading true s in
    let arxivId := extractArxivId (url s0) in
    let message := lit "Summarize this arXiv paper: " ++ arxivId in
    Await s message agentId (afterAwait s).

(** Running a task against a collaborator: the state it ends in and what it
    did on the way. *)
Definition run (agent : jsstring -> jsstring -> Outcome) (t : Task)
  : AppState * list Event :=
  match t with
  | Return s => (s, [])
  | Await s message agent_id resume =>
      let '(s', log) := resume (agent message agent_id) in
      (s', CallAIAgent message agent_id :: log)
  end.

(** One submission from start to settlement. *)
Definition submit (agent : jsstring -> jsstring -> Outcome) (s : AppState)
  : AppState * list Event :=
  run agent (handleSubmit s).

End Component.

Definition is_call (e : Event) : bool :=
  match e with CallAIAgent _ _ => true | ToastSuccess _ => false end.

(** The network calls among the events of a run. *)
Definition calls (log : list Event) : list Event := filter is_call log.

(** ** The request state of the specification *)

Inductive RequestState : Type :=
| Idle
| Loading
| Failed (message : jsstring)
| Succeeded (metadata : Paper.Metadata) (summary : jsstring).

(** What the view shows of the four cells: the spinner while [loading], the
    result card when [paperData] is set, the alert when [error] is a
    non-empty string. *)
Definition requestState (s : AppState) : RequestState :=
  if loading s then Loading
  else
    match paperData s with
    | Some d => Succeeded (Paper.metadata d) (Paper.summary d)
    | None =>
        match error s with
        | [] => Idle
        | _ :: _ => Failed (error s)
        end
    end.

(** ** The URL shape of the specification *)

(** One or more decimal digits. *)
Definition digits (d : jsstring) : Prop :=
  d <> [] /\ Forall (fun a => is_digit a = true) d.

(** [<id>]: digits, optionally a dot and digits, optionally [v] and
    digits. *)
Definition id_shape (id : jsstring) : Prop :=
  exists d frac ver,
    id = d ++ frac ++ ver /\ digits d
    /\ (frac = [] \/ exists d2, frac = lit "." ++ d2 /\ digits d2)
    /\ (ver = [] \/ exists d3, ver = lit "v" ++ d3 /\ digits d3).

(** [[scheme://][www.]host/(abs|pdf)/], the part before the identifier. *)
Definition location_shape (loc : jsstring) : Prop :=
  exists scheme www kind,
    loc = scheme ++ www ++ lit "arxiv.org/" ++ kind ++ lit "/"
    /\ (scheme = [] \/ scheme = lit "http://" \/ scheme = lit "https://")
    /\ (www = [] \/ www = lit "www.")
    /\ (kind = lit "abs" \/ kind = lit "pdf").

(** The shape occurs in [u] after [pre], with identifier [id]. *)
Definition shape_at (pre loc id post u : jsstring) : Prop :=
  u = pre ++ loc ++ id ++ post /\ location_shape loc /\ id_shape id.

(** The shape occurs somewhere in [u]. *)
Definition matches_shape (u : jsstring) : Prop :=
  exists pre loc id post, shape_at pre loc id post u.

(** The longest identifier at the start of a string, read directly: what is
    left of the input after the digits, after a dot with digits if there is
    one, and after a [v] with digits if there is one. *)
Fixpoint skip_digits (s : jsstring) : jsstring :=
  match s with
  | [] => []
  | a :: s' => if is_digit a then skip_digits s' else s
  end.

Definition skip_suffix (p : char16) (s : jsstring) : jsstring :=
  match s with
  | a :: b :: s' =>
      if (char16_eqb p a && is_digit b)%bool then skip_digits s' else s
  | _ => s
  end.

Definition skip_id (s : jsstring) : jsstring :=
  skip_suffix 118%N (skip_suffix 46%N (skip_digits s)).

(** [pre] is where the shape occurs first in [u]. *)
Definition leftmost (pre u : jsstring) : Prop :=
  forall pre' loc' id' post',
    shape_at pre' loc' id' post' u -> length pre <= length pre'.

(** [id] is the longest identifier at the start of [id ++ post]. *)
Definition longest (id post : jsstring) : Prop :=
  forall id' post',
    id ++ post = id' ++ post' -> id_shape id' -> length id' <= length id.

(** ** Reachable states *)

(** The states the component goes through: typing into the input, and
    submissions.  The view disables the input and the button while
    [loading], so nothing happens between an [await] and its resumption. *)
Inductive reachable (parse : jsstring -> option Response.t)
  : AppState -> Prop :=
| reach_initial : reachable parse initialState
| reach_setUrl v s : reachable parse s -> reachable parse (setUrl v s)
| reach_return s s' :
    reachable parse s -> handleSubmit parse s = Return s' ->
    reachable parse s'
| reach_await s s' msg a k :
    reachable parse s -> handleSubmit parse s = Await s' msg a k ->
    reachable parse s'
| reach_settle s s' msg a k o :
    reachable parse s -> handleSubmit parse s = Await s' msg a k ->
    reachable parse (fst (k o)).

(** ** Fixtures of the examples *)

Definition sampleUrl : jsstring := lit "https://arxiv.org/abs/1234.56789".

Definition sampleMetadata : Paper.Metadata :=
  {| Paper.title := lit "On Things";
     Paper.authors := [lit "A. Author"; lit "B. Author"];
     Paper.abstract := lit "We study things.";
     Paper.url := sampleUrl;
     Paper.published_date := lit "2021-01-01" |}.

Definition response (ok : bool) (md : option Paper.Metadata)
  (sm err : option jsstring) : Response.t :=
  {| Response.success := ok;
     Response.data :=
       {| Response.metadata := md; Response.summary := sm;
          Response.error := err |} |}.

(** A parser that reads every payload as [v], one that reads none. *)
Definition parseAs (v : Response.t) : jsstring -> option Response.t :=
  fun _ => Some v.

Definition parseNothing : jsstring -> option Response.t := fun _ => None.

(** A collaborator that always settles in the same way. *)
Definition constantAgent (o : Outcome) : jsstring -> jsstring -> Outcome :=
  fun _ _ => o.

(** ** The rest of the component: the view and the copy button *)

(** The characters an identifier is made of: digits, the dot and [v]. *)
Definition is_id_char (c : char16) : bool :=
  (is_digit c || N.eqb c 46 || N.eqb c 118)%bool.

(** [Array.prototype.join]. *)
Fixpoint join (sep : jsstring) (l : list jsstring) : jsstring :=
  match l with
  | [] => []
  | [a] => a
  | a :: l' => a ++ sep ++ join sep l'
  end.

(** The result card, with the argument the Copy button passes to
    [copyToClipboard]. *)
Record CardView : Type := {
  cardTitle : jsstring;
  cardAuthors : jsstring;
  cardPublished : jsstring;
  cardAbstract : jsstring;
  cardSummary : jsstring;
  copyText : jsstring
}.

(** What the JSX of [App] depends on the state for. *)
Record View : Type := {
  inputValue : jsstring;
  inputDisabled : bool;
  buttonDisabled : bool;
  buttonLabel : jsstring;
  alert : option jsstring;
  card : option CardView
}.

Section Render.

(** [new Date(d).toLocaleDateString(undefined, {...})], which depends on
    the locale of the browser. *)
Variable formatDate : jsstring -> jsstring.

Definition render (s : AppState) : View :=
  {| inputValue := url s;
     inputDisabled := loading s;
     buttonDisabled := loading s;
     buttonLabel :=
       if loading s then lit "Processing" else lit "Summarize Paper";
     alert := if truthy (error s) then Some (error s) else None;
     card :=
       match paperData s with
       | Some d =>
           Some
             {| cardTitle := Paper.title (Paper.metadata d);
                cardAuthors :=
                  join (lit ", ") (Paper.authors (Paper.metadata d));
                cardPublished :=
                  formatDate (Paper.published_date (Paper.metadata d));
                cardAbstract := Paper.abstract (Paper.metadata d);
                cardSummary := Paper.summary d;
                copyText := Paper.summary d |}
       | None => None
       end |}.

End Render.




(** The states the component goes through when it is driven through its
    view: the input and the button are [disabled={loading}], so typing and
    submitting need a state that is not loading, and a suspended submission
    resumes from the very state it suspended in. *)
Inductive ui_reachable (parse : jsstring -> option Response.t)
  : AppState -> Prop :=
| ui_initial : ui_reachable parse initialState
| ui_type v s :
    ui_reachable parse s -> loading s = false ->
    ui_reachable parse (setUrl v s)
| ui_return s s' :
    ui_reachable parse s -> loading s = false ->
    handleSubmit parse s = Return s' ->
    ui_reachable parse s'
| ui_await s s' msg a k :
    ui_reachable parse s -> loading s = false ->
    handleSubmit parse s = Await s' msg a k ->
    ui_reachable parse s'
| ui_settle s s' msg a k o :
    ui_reachable parse s -> loading s = false ->
    handleSubmit parse s = Await s' msg a k ->
    ui_reachable parse (fst (k o)).

(** Inversion of a hypothesis, replacing it by what it yields. *)
Ltac inv H := inversion H; subst; clear H.

(** ** Examples *)

Example validate_abs :
  validateArxivUrl (lit "https://arxiv.org/abs/1234.56789") = true.
Proof. reflexivity. Qed.

Example extract_abs :
  extractArxivId (lit "https://arxiv.org/abs/1234.56789") = lit "1234.56789".
Proof. reflexivity. Qed.

Example extract_pdf_version :
  extractArxivId (lit "see www.arxiv.org/pdf/2101.00001v12.pdf now")
  = lit "2101.00001v12".
Proof. reflexivity. Qed.

Example extract_trailing_dot :
  extractArxivId (lit "arxiv.org/abs/12.v3") = lit "12".
Proof. reflexivity. Qed.

Example extract_first_of_two :
  extractArxivId (lit "arxiv.org/abs/x arxiv.org/abs/7v1 arxiv.org/abs/8")
  = lit "7v1".
Proof. reflexivity. Qed.

Example validate_no_digits :
  validateArxivUrl (lit "https://arxiv.org/abs/") = false.
Proof. reflexivity. Qed.

(** ** The matcher and the language of a pattern *)

Lemma strip_Some (p s s' : jsstring) :
  strip p s = Some s' <-> s = p ++ s'.
Proof.
  revert s; induction p as [|a p IH]; intros s; simpl.
  - split; [intros [= ->] | intros ->]; reflexivity.
  - destruct s as [|b s].
    + split; discriminate.
    + unfold char16_eqb. destruct (N.eqb_spec a b) as [->|Hab].
      * rewrite IH. split; [intros -> | intros [= ->]]; reflexivity.
      * split; [discriminate | intros [= E _]; congruence].
Qed.

Lemma strip_app (p s : jsstring) : strip p (p ++ s) = Some s.
Proof. apply strip_Some; reflexivity. Qed.

Lemma consumed_app (s1 s2 : jsstring) : consumed (s1 ++ s2) s2 = s1.
Proof.
  unfold consumed. rewrite length_app.
  replace (length s1 + length s2 - length s2) with (length s1 + 0) by lia.
  rewrite firstn_app_2. simpl. apply app_nil_r.
Qed.

Lemma orelse_Some {A} (x y : option A) (v : A) :
  orelse x y = Some v -> x = Some v \/ (x = None /\ y = Some v).
Proof. destruct x; simpl; auto. Qed.

Section MatcherFacts.
Variable R : Type.
Implicit Types (k : cont R) (r : regex) (s : jsstring) (c : captures).

(** Every result of the further iterations is a result of the continuation
    after zero or more strings of the body. *)
Lemma more_sound r k
  (IH : forall s c k' x, m r s c k' = Some x ->
        exists s1 s2 c', s = s1 ++ s2 /\ in_lang r s1 /\ k' s2 c' = Some x) :
  forall fuel s c x, more (m (R:=R) r) k fuel s c = Some x ->
    exists s1 s2 c',
      s = s1 ++ s2 /\ (s1 = [] \/ in_lang (Plus r) s1) /\ k s2 c' = Some x.
Proof.
  induction fuel as [|fuel IHf]; intros s c x H; simpl in H.
  - exists [], s, c. auto.
  - apply orelse_Some in H as [H | [_ H]].
    + apply IH in H as (s1 & s2 & c' & -> & Hr & H).
      destruct (Nat.ltb (length s2) (length (s1 ++ s2))); [|discriminate].
      apply IHf in H as (t1 & t2 & c'' & -> & Ht & H).
      exists (s1 ++ t1), t2, c''. rewrite app_assoc. split; [reflexivity|].
      split; [right | exact H].
      destruct Ht as [-> | Ht].
      * rewrite app_nil_r. now apply L_PlusOne.
      * now apply L_PlusMore.
    + exists [], s, c. auto.
Qed.

(** Soundness: a result of the matcher is a result of its continuation
    after a string of the language. *)
Lemma m_sound r :
  forall s c k x, m r s c k = Some x ->
    exists s1 s2 c', s = s1 ++ s2 /\ in_lang r s1 /\ k s2 c' = Some x.
Proof.
  induction r as [p| |r1 IH1 r2 IH2|r1 IH1 r2 IH2|r1 IH1|r1 IH1|i r1 IH1];
    intros s c k x H; simpl in H.
  - destruct (strip p s) as [s'|] eqn:E; [|discriminate].
    apply strip_Some in E as ->. exists p, s', c. auto using in_lang.
  - destruct s as [|a s]; [discriminate|].
    destruct (is_digit a) eqn:E; [|discriminate].
    exists [a], s, c. auto using in_lang.
  - apply IH1 in H as (s1 & s2 & c1 & -> & H1 & H).
    apply IH2 in H as (t1 & t2 & c2 & -> & H2 & H).
    exists (s1 ++ t1), t2, c2. rewrite app_assoc. auto using in_lang.
  - apply orelse_Some in H as [H | [_ H]].
    + apply IH1 in H as (s1 & s2 & c1 & -> & H1 & H).
      exists s1, s2, c1. auto using in_lang.
    + apply IH2 in H as (s1 & s2 & c1 & -> & H1 & H).
      exists s1, s2, c1. auto using in_lang.
  - apply orelse_Some in H as [H | [_ H]].
    + apply IH1 in H as (s1 & s2 & c1 & -> & H1 & H).
      exists s1, s2, c1. auto using in_lang.
    + exists [], s, c. auto using in_lang.
  - apply IH1 in H as (s1 & s2 & c1 & -> & H1 & H).
    apply (@more_sound r1 k IH1) in H as (t1 & t2 & c2 & -> & Ht & H).
    exists (s1 ++ t1), t2, c2. rewrite app_assoc. split; [reflexivity|].
    split; [|exact H].
    destruct Ht as [-> | Ht].
    + rewrite app_nil_r. now apply L_PlusOne.
    + now apply L_PlusMore.
  - apply IH1 in H as (s1 & s2 & c1 & -> & H1 & H).
    exists s1, s2, (set_capture i (consumed (s1 ++ s2) s2) c1).
    auto using in_lang.
Qed.

(** A string of [Plus r] is a string of [r] followed by non-empty strings
    of [r]. *)
Lemma in_lang_Plus_inv r s :
  in_lang (Plus r) s ->
  exists w ws, s = w ++ concat ws /\ in_lang r w
    /\ Forall (fun v => in_lang r v /\ v <> []) ws.
Proof.
  intros H. remember (Plus r) as r' eqn:E.
  induction H as [| | | | | | |r0 s H _|r0 s1 s2 H1 _ H2 IH2|];
    try discriminate; injection E as ->.
  - exists s, []. simpl. rewrite app_nil_r. auto.
  - destruct (IH2 eq_refl) as (w & ws & -> & Hw & Hws).
    destruct w as [|a w].
    + exists s1, ws. simpl. auto.
    + exists s1, ((a :: w) :: ws). simpl. split; [reflexivity|].
      split; [exact H1|]. constructor; [|exact Hws]. split; [exact Hw|discriminate].
Qed.

Lemma more_complete r k s2
  (IH : forall s1 s2 c k', in_lang r s1 -> (forall c', k' s2 c' <> None) ->
        m r (s1 ++ s2) c k' <> None)
  (Hk : forall c', k s2 c' <> None) :
  forall ws, Forall (fun v => in_lang r v /\ v <> []) ws ->
  forall fuel c, length (concat ws ++ s2) <= fuel ->
    more (m (R:=R) r) k fuel (concat ws ++ s2) c <> None.
Proof.
  induction 1 as [|w ws [Hw Hne] _ IHws]; intros fuel c Hf.
  - simpl. destruct fuel as [|fuel]; simpl; [apply Hk|].
    destruct (m r s2 c _); simpl; [discriminate | apply Hk].
  - simpl in *. rewrite <- app_assoc in *.
    destruct fuel as [|fuel].
    + destruct w; [congruence | simpl in Hf; lia].
    + simpl.
      match goal with |- orelse ?a _ <> None => destruct a eqn:E end;
        simpl; [discriminate|].
      exfalso. revert E. apply IH; [exact Hw|].
      intros c'.
      destruct (Nat.ltb_spec (length (concat ws ++ s2))
                  (length (w ++ concat ws ++ s2))) as [_|Hlt].
      * apply IHws. destruct w; [congruence|]. simpl in Hf. 
        rewrite length_app in Hf. lia.
      * destruct w; [congruence|]. simpl in Hlt. rewrite length_app in Hlt. lia.
Qed.

(** Completeness: if the input starts with a string of the language after
    which the continuation succeeds whatever was captured, the matcher
    succeeds. *)
Lemma m_complete r :
  forall s1 s2 c k, in_lang r s1 -> (forall c', k s2 c' <> None) ->
    m r (s1 ++ s2) c k <> None.
Proof.
  induction r as [p| |r1 IH1 r2 IH2|r1 IH1 r2 IH2|r1 IH1|r1 IH1|i r1 IH1];
    intros s1 s2 c k H Hk.
  - inversion H; subst. simpl. rewrite strip_app. apply Hk.
  - inversion H; subst. simpl.
    match goal with E : is_digit _ = true |- _ => rewrite E end. apply Hk.
  - inversion H; subst. simpl. rewrite <- app_assoc.
    apply IH1; [assumption|]. intros c'. now apply IH2.
  - simpl. inversion H; subst.
    + destruct (m r1 (s1 ++ s2) c k) eqn:E; simpl; [discriminate|].
      exfalso. revert E. now apply IH1.
    + destruct (m r1 (s1 ++ s2) c k); simpl; [discriminate|]. now apply IH2.
  - simpl. inversion H; subst.
    + simpl. destruct (m r1 s2 c k); simpl; [discriminate | apply Hk].
    + destruct (m r1 (s1 ++ s2) c k) eqn:E; simpl; [discriminate|].
      exfalso. revert E. now apply IH1.
  - apply in_lang_Plus_inv in H as (w & ws & -> & Hw & Hws).
    simpl. rewrite <- app_assoc. apply IH1; [exact Hw|].
    intros c'. apply more_complete; auto.
  - inversion H; subst. simpl. apply IH1; [assumption|].
    intros c'. apply Hk.
Qed.

End MatcherFacts.

(** ** The pattern of the source and the shape of the specification *)

Lemma in_lang_digits (d : jsstring) : in_lang (Plus Digit) d <-> digits d.
Proof.
  split.
  - intros H. apply in_lang_Plus_inv in H as (w & ws & -> & Hw & Hws).
    inv Hw. split; [discriminate|]. simpl. constructor; [assumption|].
    induction Hws as [|v ws [Hv _] _ IH]; simpl; [constructor|].
    inv Hv. simpl. constructor; assumption.
  - intros [Hne Hall]. induction Hall as [|a d Ha Hall IH]; [congruence|].
    destruct d as [|b d].
    + apply L_PlusOne. now constructor.
    + apply (L_PlusMore (s1:=[a])); [now constructor|].
      apply IH. discriminate.
Qed.

Lemma in_lang_Str_inv p s : in_lang (Str p) s -> s = p.
Proof. intros H. now inv H. Qed.

Lemma in_lang_Cat_inv r1 r2 s :
  in_lang (Cat r1 r2) s ->
  exists s1 s2, s = s1 ++ s2 /\ in_lang r1 s1 /\ in_lang r2 s2.
Proof. intros H. inv H. eauto. Qed.

Lemma in_lang_Or_inv r1 r2 s :
  in_lang (Or r1 r2) s -> in_lang r1 s \/ in_lang r2 s.
Proof. intros H. inv H; auto. Qed.

Lemma in_lang_Opt_inv r s : in_lang (Opt r) s -> s = [] \/ in_lang r s.
Proof. intros H. inv H; auto. Qed.

Lemma in_lang_Group_inv i r s : in_lang (Group i r) s -> in_lang r s.
Proof. intros H. now inv H. Qed.

(** [(?:c\d+)?] for a literal [c]. *)
Lemma in_lang_suffix (p s : jsstring) :
  in_lang (Opt (Cat (Str p) (Plus Digit))) s <->
  (s = [] \/ exists d, s = p ++ d /\ digits d).
Proof.
  split.
  - intros H. apply in_lang_Opt_inv in H as [-> | H]; [now left|]. right.
    apply in_lang_Cat_inv in H as (s1 & s2 & -> & H1 & H2).
    apply in_lang_Str_inv in H1 as ->. exists s2.
    split; [reflexivity | now apply in_lang_digits].
  - intros [-> | (d & -> & Hd)]; [constructor|].
    apply L_OptSome, L_Cat; [constructor | now apply in_lang_digits].
Qed.

Lemma in_lang_id (id : jsstring) : in_lang idRegex id <-> id_shape id.
Proof.
  unfold idRegex, id_shape. split.
  - intros H. apply in_lang_Cat_inv in H as (d & s & -> & Hd & H).
    apply in_lang_Cat_inv in H as (frac & ver & -> & Hf & Hv).
    exists d, frac, ver. split; [reflexivity|].
    split; [now apply in_lang_digits|].
    split; now apply in_lang_suffix.
  - intros (d & frac & ver & -> & Hd & Hfrac & Hver).
    apply L_Cat; [now apply in_lang_digits|].
    apply L_Cat; now apply in_lang_suffix.
Qed.

Lemma in_lang_scheme (s : jsstring) :
  in_lang (Opt schemeRegex) s <->
  (s = [] \/ s = lit "http://" \/ s = lit "https://").
Proof.
  unfold schemeRegex. split.
  - intros H. apply in_lang_Opt_inv in H as [-> | H]; [now left|]. right.
    apply in_lang_Cat_inv in H as (s1 & s2 & -> & H1 & H).
    apply in_lang_Cat_inv in H as (s3 & s4 & -> & H3 & H4).
    apply in_lang_Str_inv in H1 as ->. apply in_lang_Str_inv in H4 as ->.
    apply in_lang_Opt_inv in H3 as [-> | H3]; [now left|].
    apply in_lang_Str_inv in H3 as ->. now right.
  - intros [-> | [-> | ->]]; [constructor | |]; apply L_OptSome.
    + apply (L_Cat (s1:=lit "http") (s2:=lit "://")); [constructor|].
      apply (L_Cat (s1:=[])); constructor.
    + apply (L_Cat (s1:=lit "http") (s2:=lit "s://")); [constructor|].
      apply (L_Cat (s1:=lit "s")); [apply L_OptSome|]; constructor.
Qed.

Lemma in_lang_location (loc : jsstring) :
  in_lang locationRegex loc <-> location_shape loc.
Proof.
  unfold locationRegex, location_shape. split.
  - intros H. apply in_lang_Cat_inv in H as (scheme & s & -> & Hs & H).
    apply in_lang_Cat_inv in H as (www & s' & -> & Hw & H).
    apply in_lang_Cat_inv in H as (host & s'' & -> & Hh & H).
    apply in_lang_Cat_inv in H as (kind & sl & -> & Hk & Hsl).
    apply in_lang_Str_inv in Hh as ->. apply in_lang_Str_inv in Hsl as ->.
    exists scheme, www, kind. split; [reflexivity|].
    split; [now apply in_lang_scheme|]. split.
    + apply in_lang_Opt_inv in Hw as [-> | Hw]; [now left|].
      apply in_lang_Str_inv in Hw as ->. now right.
    + apply in_lang_Or_inv in Hk as [Hk | Hk];
        apply in_lang_Str_inv in Hk as ->; [now left | now right].
  - intros (scheme & www & kind & -> & Hs & Hw & Hk).
    apply L_Cat; [now apply in_lang_scheme|].
    apply L_Cat; [|apply L_Cat; [|apply L_Cat]].
    + destruct Hw as [-> | ->]; [constructor | apply L_OptSome; constructor].
    + constructor.
    + destruct Hk as [-> | ->]; [apply L_OrL | apply L_OrR]; constructor.
    + constructor.
Qed.

Lemma in_lang_arxiv (w : jsstring) :
  in_lang arxivRegex w <->
  exists loc id, w = loc ++ id /\ location_shape loc /\ id_shape id.
Proof.
  unfold arxivRegex. split.
  - intros H. apply in_lang_Cat_inv in H as (loc & id & -> & Hl & Hi).
    apply in_lang_Group_inv in Hi. exists loc, id.
    split; [reflexivity|].
    split; [now apply in_lang_location | now apply in_lang_id].
  - intros (loc & id & -> & Hl & Hi).
    apply L_Cat; [now apply in_lang_location|].
    apply L_Group. now apply in_lang_id.
Qed.

Lemma id_shape_nonempty (id : jsstring) : id_shape id -> id <> [].
Proof.
  intros (d & frac & ver & -> & [Hd _] & _) E.
  apply app_eq_nil in E as [E _]. contradiction.
Qed.

(** ** Greedy matching of the identifier *)

Section Greedy.
Variable R : Type.
Variable k : cont R.
Hypothesis k_total : forall s c, k s c <> None.

Lemma more_digit (fuel : nat) (s : jsstring) (c : captures) :
  length s <= fuel -> more (m Digit) k fuel s c = k (skip_digits s) c.
Proof.
  revert s; induction fuel as [|fuel IH]; intros s Hf.
  - destruct s; [reflexivity | simpl in Hf; lia].
  - destruct s as [|a s]; simpl.
    + reflexivity.
    + destruct (is_digit a); [|reflexivity].
      destruct (Nat.ltb_spec (length s) (S (length s))) as [_|]; [|lia].
      simpl in Hf. rewrite IH by lia.
      destruct (k (skip_digits s) c) eqn:E; [reflexivity|].
      now apply k_total in E.
Qed.

Lemma m_plus_digit (s : jsstring) (c : captures) :
  m (Plus Digit) s c k =
  match s with
  | a :: _ => if is_digit a then k (skip_digits s) c else None
  | [] => None
  end.
Proof.
  destruct s as [|a s]; [reflexivity|]. simpl.
  destruct (is_digit a); [|reflexivity]. now apply more_digit.
Qed.

Lemma m_opt_suffix (p : char16) (s : jsstring) (c : captures) :
  m (Opt (Cat (Str [p]) (Plus Digit))) s c k = k (skip_suffix p s) c.
Proof.
  change (m (Opt (Cat (Str [p]) (Plus Digit))) s c k)
    with (orelse
            (match strip [p] s with
             | Some s' => m (Plus Digit) s' c k
             | None => None
             end) (k s c)).
  destruct s as [|a s]; [reflexivity|]. unfold skip_suffix. simpl strip.
  destruct (char16_eqb p a); cbv beta iota.
  - rewrite m_plus_digit. destruct s as [|b s]; [reflexivity|].
    simpl andb. destruct (is_digit b) eqn:Eb; [|reflexivity].
    simpl skip_digits. rewrite Eb.
    destruct (k (skip_digits s) c) eqn:E; [reflexivity|].
    now apply k_total in E.
  - now destruct s.
Qed.

End Greedy.

Lemma m_id_greedy (R : Type) (k : cont R) (s : jsstring) (c : captures) :
  (forall s' c', k s' c' <> None) ->
  m idRegex s c k =
  match s with
  | a :: _ => if is_digit a then k (skip_id s) c else None
  | [] => None
  end.
Proof.
  intros Hk. unfold idRegex.
  change (m (Cat (Plus Digit) ?r) s c k)
    with (m (Plus Digit) s c (fun s' c' => m r s' c' k)).
  assert (Hv : forall s' c',
             m (Opt (Cat (Str (lit "v")) (Plus Digit))) s' c' k
             = k (skip_suffix 118%N s') c')
    by (intros; now apply m_opt_suffix).
  assert (Hd : forall s' c',
             m (Cat (Opt (Cat (Str (lit ".")) (Plus Digit)))
                  (Opt (Cat (Str (lit "v")) (Plus Digit)))) s' c' k
             = k (skip_suffix 118%N (skip_suffix 46%N s')) c').
  { intros s' c'.
    change (m (Cat ?r1 ?r2) s' c' k)
      with (m r1 s' c' (fun s'' c'' => m r2 s'' c'' k)).
    change (lit ".") with [46%N]. rewrite m_opt_suffix.
    - apply Hv.
    - intros s'' c''. rewrite Hv. apply Hk. }
  rewrite m_plus_digit.
  - destruct s as [|a s]; [reflexivity|].
    destruct (is_digit a); [|reflexivity]. apply Hd.
  - intros s' c'. rewrite Hd. apply Hk.
Qed.

Lemma skip_digits_length (s : jsstring) : length (skip_digits s) <= length s.
Proof.
  induction s as [|a s IH]; simpl; [lia|].
  destruct (is_digit a); simpl; lia.
Qed.

Lemma skip_suffix_length (p : char16) (s : jsstring) :
  length (skip_suffix p s) <= length s.
Proof.
  unfold skip_suffix. destruct s as [|a [|b s]]; simpl; try lia.
  destruct (char16_eqb p a && is_digit b)%bool; simpl; [|lia].
  pose proof (skip_digits_length s). lia.
Qed.

Lemma skip_id_length (s : jsstring) : length (skip_id s) <= length s.
Proof.
  unfold skip_id.
  pose proof (skip_digits_length s).
  pose proof (skip_suffix_length 46%N (skip_digits s)).
  pose proof (skip_suffix_length 118%N (skip_suffix 46%N (skip_digits s))).
  lia.
Qed.

Lemma skip_digits_app (d s : jsstring) :
  Forall (fun a => is_digit a = true) d ->
  skip_digits (d ++ s) = skip_digits s.
Proof.
  induction 1 as [|a d Ha _ IH]; simpl; [reflexivity|]. now rewrite Ha.
Qed.

Lemma skip_suffix_app (p : char16) (d s : jsstring) :
  digits d -> skip_suffix p ([p] ++ d ++ s) = skip_digits s.
Proof.
  intros [Hne Hd]. destruct Hd as [|b d Hb Hd]; [congruence|].
  simpl. unfold char16_eqb. rewrite N.eqb_refl, Hb. simpl.
  now apply skip_digits_app.
Qed.

(** No identifier at the start of a string reaches beyond the one that
    [skip_id] skips. *)
Lemma skip_id_longest (id post : jsstring) :
  id_shape id -> length (skip_id (id ++ post)) <= length post.
Proof.
  intros (d & frac & ver & -> & [_ Hd] & Hfrac & Hver).
  unfold skip_id. rewrite <- !app_assoc, skip_digits_app by exact Hd.
  pose proof (skip_digits_length post) as Hp.
  assert (Hv : length (skip_suffix 118%N (skip_digits (ver ++ post)))
               <= length post).
  { destruct Hver as [-> | (d3 & -> & Hd3)].
    - pose proof (skip_suffix_length 118%N (skip_digits post)). simpl. lia.
    - change (lit "v") with [118%N]. rewrite <- app_assoc.
      change (skip_digits ([118%N] ++ d3 ++ post)) with ([118%N] ++ d3 ++ post).
      now rewrite skip_suffix_app. }
  destruct Hfrac as [-> | (d2 & -> & Hd2)].
  - simpl app. destruct Hver as [-> | (d3 & -> & Hd3)].
    + simpl app.
      pose proof (skip_suffix_length 46%N (skip_digits post)).
      pose proof (skip_suffix_length 118%N (skip_suffix 46%N (skip_digits post))).
      lia.
    + change (lit "v") with [118%N]. rewrite <- app_assoc.
      change (skip_digits ([118%N] ++ d3 ++ post)) with ([118%N] ++ d3 ++ post).
      assert (E : skip_suffix 46%N ([118%N] ++ d3 ++ post) = [118%N] ++ d3 ++ post).
      { unfold skip_suffix. simpl. now destruct (d3 ++ post). }
      rewrite E, skip_suffix_app by exact Hd3. exact Hp.
  - change (lit ".") with [46%N]. rewrite <- !app_assoc.
    change (skip_digits ([46%N] ++ d2 ++ ver ++ post))
      with ([46%N] ++ d2 ++ ver ++ post).
    rewrite skip_suffix_app by exact Hd2. exact Hv.
Qed.

(** ** [exec] on the pattern of the source *)

Lemma exec_eq (r : regex) (s : jsstring) :
  exec r s =
  match m (Group 0 r) s no_captures (fun _ c => Some c) with
  | Some c => Some c
  | None => match s with [] => None | _ :: s' => exec r s' end
  end.
Proof. destruct s; reflexivity. Qed.

Lemma m_top_complete (r : regex) (w post : jsstring) :
  in_lang r w ->
  m (Group 0 r) (w ++ post) no_captures (fun _ c => Some c) <> None.
Proof.
  intros H. apply m_complete; [now constructor | discriminate].
Qed.

Lemma exec_Some (r : regex) (s : jsstring) (c : captures) :
  exec r s = Some c ->
  exists pre rest,
    s = pre ++ rest
    /\ m (Group 0 r) rest no_captures (fun _ c' => Some c') = Some c
    /\ forall pre' w post,
         s = pre' ++ w ++ post -> in_lang r w -> length pre <= length pre'.
Proof.
  induction s as [|a s IH]; rewrite exec_eq;
    destruct (m (Group 0 r) _ no_captures _) eqn:E.
  - intros [= ->]. exists [], []. repeat split; [exact E|].
    intros; simpl; lia.
  - discriminate.
  - intros [= ->]. exists [], (a :: s). repeat split; [exact E|].
    intros; simpl; lia.
  - intros H. destruct (IH H) as (pre & rest & -> & Hm & Hleft).
    exists (a :: pre), rest. repeat split; [exact Hm|].
    intros pre' w post Hs Hw. destruct pre' as [|b pre'].
    + exfalso. simpl in Hs. rewrite Hs in E.
      now apply m_top_complete in E.
    + injection Hs as _ Hs. simpl. apply le_n_S. eapply Hleft; eauto.
Qed.

Lemma exec_None (r : regex) (s : jsstring) :
  exec r s = None ->
  forall pre w post, s = pre ++ w ++ post -> ~ in_lang r w.
Proof.
  induction s as [|a s IH]; rewrite exec_eq;
    destruct (m (Group 0 r) _ no_captures _) eqn:E; try discriminate.
  - intros _ pre w post Hs Hw. symmetry in Hs.
    apply app_eq_nil in Hs as [-> Hs]. simpl in Hs. rewrite <- Hs in E.
    now apply m_top_complete in E.
  - intros H pre w post Hs Hw. destruct pre as [|b pre].
    + simpl in Hs. rewrite Hs in E. now apply m_top_complete in E.
    + injection Hs as _ Hs. eapply IH; eauto.
Qed.

(** A match of the pattern at the start of [s]: its parts, its two groups
    and how far the identifier reaches. *)
Lemma m_arxiv_Some (s : jsstring) (c : captures) :
  m (Group 0 arxivRegex) s no_captures (fun _ c' => Some c') = Some c ->
  exists loc id post,
    s = loc ++ id ++ post /\ location_shape loc /\ id_shape id
    /\ c 0 = Some (loc ++ id) /\ c 1 = Some id
    /\ length (skip_id (id ++ post)) = length post.
Proof.
  unfold arxivRegex.
  change (m (Group 0 (Cat locationRegex (Group 1 idRegex))) s no_captures
            (fun _ c' => Some c'))
    with (m locationRegex s no_captures
            (fun s1 c1 =>
               m idRegex s1 c1
                 (fun s2 c2 =>
                    Some (set_capture 0 (consumed s s2)
                            (set_capture 1 (consumed s1 s2) c2))))).
  intros H. apply m_sound in H as (loc & rest & c1 & -> & Hloc & H).
  pose proof H as G. apply m_sound in H as (id & post & c2 & -> & Hid & H).
  injection H as <-.
  rewrite m_id_greedy in G by discriminate.
  exists loc, id, post. split; [reflexivity|].
  split; [now apply in_lang_location|]. split; [now apply in_lang_id|].
  unfold set_capture at 1 3. simpl Nat.eqb. cbv iota.
  rewrite (app_assoc loc id post), !consumed_app.
  split; [reflexivity|]. split; [reflexivity|].
  destruct (id ++ post) as [|a w] eqn:E; [discriminate|].
  destruct (is_digit a); [|discriminate]. injection G as G.
  apply (f_equal (fun f => f 1)) in G. unfold set_capture in G. simpl in G.
  rewrite <- E in *. rewrite consumed_app in G. injection G as G.
  apply (f_equal (@length _)) in G. unfold consumed in G.
  pose proof (skip_id_length (id ++ post)) as L.
  rewrite length_firstn, length_app in *. lia.
Qed.

(** The successful matches of [exec]: the first occurrence of the shape,
    group 1 holding the longest identifier there. *)
Lemma exec_arxiv_group (u : jsstring) (c : captures) :
  exec arxivRegex u = Some c ->
  exists pre loc id post,
    shape_at pre loc id post u /\ leftmost pre u /\ longest id post
    /\ c 1 = Some id.
Proof.
  intros H. apply exec_Some in H as (pre & rest & -> & H & Hleft).
  apply m_arxiv_Some in H as (loc & id & post & -> & Hloc & Hid & _ & Hc & L).
  exists pre, loc, id, post. split; [now repeat split|].
  split; [|split; [|exact Hc]].
  - intros pre' loc' id' post' (E & Hloc' & Hid').
    apply (Hleft pre' (loc' ++ id') post').
    + now rewrite <- app_assoc.
    + apply in_lang_arxiv. now exists loc', id'.
  - intros id' post' E Hid'. rewrite E in L.
    pose proof (skip_id_longest post' Hid').
    apply (f_equal (@length _)) in E. rewrite !length_app in E. lia.
Qed.

Lemma exec_arxiv_None (u : jsstring) :
  exec arxivRegex u = None <-> ~ matches_shape u.
Proof.
  split.
  - intros H (pre & loc & id & post & -> & Hloc & Hid).
    apply (@exec_None _ _ H pre (loc ++ id) post).
    + now rewrite <- app_assoc.
    + apply in_lang_arxiv. now exists loc, id.
  - intros H. destruct (exec arxivRegex u) as [c|] eqn:E; [|reflexivity].
    exfalso. apply H. apply exec_arxiv_group in E as (pre & loc & id & post & E & _).
    now exists pre, loc, id, post.
Qed.

Lemma validateArxivUrl_true (u : jsstring) :
  validateArxivUrl u = true <-> matches_shape u.
Proof.
  unfold validateArxivUrl, test. split.
  - destruct (exec arxivRegex u) as [c|] eqn:E; [intros _|discriminate].
    apply exec_arxiv_group in E as (pre & loc & id & post & E & _).
    now exists pre, loc, id, post.
  - intros H. destruct (exec arxivRegex u) as [c|] eqn:E; [reflexivity|].
    now apply exec_arxiv_None in E.
Qed.

Lemma validateArxivUrl_false (u : jsstring) :
  validateArxivUrl u = false <-> ~ matches_shape u.
Proof.
  rewrite <- validateArxivUrl_true. destruct (validateArxivUrl u); split;
    congruence.
Qed.

(** ** Identifier extraction *)

(** C8.  If the shape [[scheme://][www.]arxiv.org/(abs|pdf)/<id>] occurs
    somewhere in the string, [extractArxivId] returns the identifier group
    of the first match: the string splits at the first occurrence of the
    shape, the identifier is the longest one there, it is not empty and it
    consists of digits, optionally a dot and digits, optionally [v] and
    digits.  If the shape does not occur, the result is the empty string. *)
Theorem extractArxivId_first_match (u : jsstring) :
  (matches_shape u ->
   exists pre loc id post,
     shape_at pre loc id post u /\ leftmost pre u /\ longest id post
     /\ id_shape id /\ id <> [] /\ extractArxivId u = id)
  /\ (~ matches_shape u -> extractArxivId u = []).
Proof.
  unfold extractArxivId. split.
  - intros H. destruct (exec arxivRegex u) as [c|] eqn:E.
    + apply exec_arxiv_group in E as (pre & loc & id & post & Hs & Hl & Hg & Hc).
      exists pre, loc, id, post. rewrite Hc.
      pose proof Hs as (_ & _ & Hid).
      repeat split; auto using id_shape_nonempty; apply Hs.
    + now apply exec_arxiv_None in E.
  - intros H. apply exec_arxiv_None in H. now rewrite H.
Qed.

Lemma sampleUrl_matches : matches_shape sampleUrl.
Proof. apply validateArxivUrl_true. reflexivity. Defined.

Lemma extractArxivId_first_match_witness :
  (exists pre loc id post,
     shape_at pre loc id post sampleUrl /\ leftmost pre sampleUrl
     /\ longest id post /\ id_shape id /\ id <> []
     /\ extractArxivId sampleUrl = id)
  /\ extractArxivId (lit "https://example.org/abs/1") = [].
Proof.
  split.
  - apply (proj1 (extractArxivId_first_match sampleUrl)).
    exact sampleUrl_matches.
  - apply (proj2 (extractArxivId_first_match (lit "https://example.org/abs/1"))).
    apply validateArxivUrl_false. reflexivity.
Defined.

(** C10.  [validateArxivUrl] accepts a string exactly when
    [extractArxivId] returns a non-empty identifier for it. *)
Theorem validate_iff_extract_nonempty (u : jsstring) :
  validateArxivUrl u = true <-> extractArxivId u <> [].
Proof.
  unfold validateArxivUrl, test, extractArxivId.
  destruct (exec arxivRegex u) as [c|] eqn:E.
  - apply exec_arxiv_group in E as (pre & loc & id & post & Hs & _ & _ & Hc).
    rewrite Hc. destruct Hs as (_ & _ & Hid).
    split; [intros _; now apply id_shape_nonempty | reflexivity].
  - split; [discriminate | congruence].
Qed.

(** ** Submission *)

Lemma trimStart_white_space (u : jsstring) :
  Forall (fun a => is_white_space a = true) u -> trimStart u = [].
Proof.
  induction 1 as [|a u Ha _ IH]; simpl; [reflexivity|]. now rewrite Ha.
Qed.

Lemma trim_white_space (u : jsstring) :
  Forall (fun a => is_white_space a = true) u -> trim u = [].
Proof.
  intros H. unfold trim, trimEnd. now rewrite (trimStart_white_space H).
Qed.

(** The three ways [handleSubmit] goes, by its two guards. *)
Lemma handleSubmit_blank parse (s : AppState) :
  trim (url s) = [] ->
  handleSubmit parse s =
  Return (setError (lit "Please enter an arXiv URL")
            (setPaperData None (setError [] s))).
Proof. intros H. unfold handleSubmit. now rewrite H. Qed.

Lemma handleSubmit_malformed parse (s : AppState) :
  trim (url s) <> [] -> validateArxivUrl (url s) = false ->
  handleSubmit parse s =
  Return
    (setError
       (lit "Please enter a valid arXiv URL (e.g., https://arxiv.org/abs/1234.56789)")
       (setPaperData None (setError [] s))).
Proof.
  intros Ht Hv. unfold handleSubmit. rewrite Hv.
  destruct (trim (url s)); [congruence | reflexivity].
Qed.

Lemma handleSubmit_valid parse (s : AppState) :
  trim (url s) <> [] -> validateArxivUrl (url s) = true ->
  handleSubmit parse s =
  let s' := setLoading true (setPaperData None (setError [] s)) in
  Await s' (lit "Summarize this arXiv paper: " ++ extractArxivId (url s))
    agentId (afterAwait parse s').
Proof.
  intros Ht Hv. unfold handleSubmit. rewrite Hv.
  destruct (trim (url s)); [congruence | reflexivity].
Qed.

Lemma afterAwait_loading parse (s : AppState) (o : Outcome) :
  loading (fst (afterAwait parse s o)) = false.
Proof.
  unfold afterAwait. destruct o as [payload|]; [|reflexivity].
  destruct (Response.success _); [|reflexivity].
  destruct (Response.metadata _); [|reflexivity].
  destruct (Response.summary _) as [[|? ?]|]; reflexivity.
Qed.

(** C6.  When the input is empty or consists only of white space,
    submitting returns at once with the error "Please enter an arXiv URL"
    and no result, and makes no network call; the request state is
    [Failed "Please enter an arXiv URL"].  (The request state is read off a
    state that is not loading: the view disables the form while
    [loading].) *)
Theorem submit_blank_input parse agent (s : AppState) :
  Forall (fun a => is_white_space a = true) (url s) ->
  exists s',
    handleSubmit parse s = Return s'
    /\ submit parse agent s = (s', [])
    /\ error s' = lit "Please enter an arXiv URL"
    /\ paperData s' = None
    /\ (loading s = false ->
        requestState s' = Failed (lit "Please enter an arXiv URL")).
Proof.
  intros Hws. eexists. unfold submit.
  rewrite handleSubmit_blank by now apply trim_white_space.
  repeat split. intros Hl. unfold requestState. simpl. now rewrite Hl.
Qed.

Lemma submit_blank_input_witness :
  (exists s',
      handleSubmit parseNothing (setUrl (lit "   ") initialState) = Return s'
      /\ submit parseNothing (constantAgent Rejected)
           (setUrl (lit "   ") initialState) = (s', [])
      /\ requestState s' = Failed (lit "Please enter an arXiv URL"))
  /\ (exists s',
      handleSubmit parseNothing (setUrl [] initialState) = Return s'
      /\ submit parseNothing (constantAgent Rejected)
           (setUrl [] initialState) = (s', [])
      /\ requestState s' = Failed (lit "Please enter an arXiv URL")).
Proof.
  split.
  - destruct (@submit_blank_input parseNothing (constantAgent Rejected)
                (setUrl (lit "   ") initialState))
      as (s' & H1 & H2 & _ & _ & H3).
    + simpl. repeat constructor.
    + exists s'. repeat split; [exact H1 | exact H2 | apply H3; reflexivity].
  - destruct (@submit_blank_input parseNothing (constantAgent Rejected)
                (setUrl [] initialState))
      as (s' & H1 & H2 & _ & _ & H3).
    + simpl. constructor.
    + exists s'. repeat split; [exact H1 | exact H2 | apply H3; reflexivity].
Defined.

(** C7, as stated, fails on a string of white space: it is not empty and
    does not match the shape, yet the message is the one for missing input,
    because [handleSubmit] tests the trimmed input first. *)
Lemma submit_white_space_not_malformed :
  url (setUrl (lit " ") initialState) <> []
  /\ ~ matches_shape (url (setUrl (lit " ") initialState))
  /\ requestState
       (fst (submit parseNothing (constantAgent Rejected)
               (setUrl (lit " ") initialState)))
     = Failed (lit "Please enter an arXiv URL")
  /\ requestState
       (fst (submit parseNothing (constantAgent Rejected)
               (setUrl (lit " ") initialState)))
     <> Failed
          (lit "Please enter a valid arXiv URL (e.g., https://arxiv.org/abs/1234.56789)").
Proof.
  split; [discriminate|]. split.
  - apply validateArxivUrl_false. reflexivity.
  - split; [reflexivity | discriminate].
Qed.

(** C7, amended.  When the input is not empty after trimming and does not
    match the shape, [validateArxivUrl] returns false and submitting returns
    at once with the error "Please enter a valid arXiv URL (e.g.,
    https://arxiv.org/abs/1234.56789)" and no result, without a network
    call; the request state is [Failed] with that message.  (The request
    state is read off a state that is not loading.) *)
Theorem submit_malformed_input parse agent (s : AppState) :
  trim (url s) <> [] ->
  ~ matches_shape (url s) ->
  validateArxivUrl (url s) = false
  /\ exists s',
       handleSubmit parse s = Return s'
       /\ submit parse agent s = (s', [])
       /\ error s'
          = lit "Please enter a valid arXiv URL (e.g., https://arxiv.org/abs/1234.56789)"
       /\ paperData s' = None
       /\ (loading s = false ->
           requestState s'
           = Failed
               (lit "Please enter a valid arXiv URL (e.g., https://arxiv.org/abs/1234.56789)")).
Proof.
  intros Ht Hm. apply validateArxivUrl_false in Hm.
  split; [exact Hm|]. eexists. unfold submit.
  rewrite handleSubmit_malformed by assumption.
  repeat split. intros Hl. unfold requestState. simpl. now rewrite Hl.
Qed.

Lemma submit_malformed_input_witness :
  validateArxivUrl (url (setUrl (lit "https://example.org/abs/1") initialState))
  = false
  /\ exists s',
       handleSubmit parseNothing
         (setUrl (lit "https://example.org/abs/1") initialState) = Return s'
       /\ submit parseNothing (constantAgent Rejected)
            (setUrl (lit "https://example.org/abs/1") initialState) = (s', [])
       /\ requestState s'
          = Failed
              (lit "Please enter a valid arXiv URL (e.g., https://arxiv.org/abs/1234.56789)").
Proof.
  destruct (@submit_malformed_input parseNothing (constantAgent Rejected)
              (setUrl (lit "https://example.org/abs/1") initialState))
    as (Hv & s' & H1 & H2 & _ & _ & H3).
  - simpl. discriminate.
  - apply validateArxivUrl_false. reflexivity.
  - split; [exact Hv|]. exists s'.
    repeat split; [exact H1 | exact H2 | apply H3; reflexivity].
Defined.

(** C3.  When the input is not empty after trimming and passes validation,
    [handleSubmit] suspends in a state that is [Loading] with result and
    error cleared, and a run makes exactly one network call, with the
    prompt "Summarize this arXiv paper: " followed by the extracted
    identifier and with the fixed agent identifier.  For
    "https://arxiv.org/abs/1234.56789" the prompt is
    "Summarize this arXiv paper: 1234.56789". *)
Theorem submit_valid_input parse agent (s : AppState) :
  trim (url s) <> [] ->
  validateArxivUrl (url s) = true ->
  (exists s' resume,
     handleSubmit parse s
     = Await s' (lit "Summarize this arXiv paper: " ++ extractArxivId (url s))
         (lit "68f24d4e811f17edf77d460e") resume
     /\ requestState s' = Loading
     /\ paperData s' = None
     /\ error s' = []
     /\ calls (snd (submit parse agent s))
        = [CallAIAgent
             (lit "Summarize this arXiv paper: " ++ extractArxivId (url s))
             (lit "68f24d4e811f17edf77d460e")])
  /\ lit "Summarize this arXiv paper: " ++ extractArxivId sampleUrl
     = lit "Summarize this arXiv paper: 1234.56789".
Proof.
  intros Ht Hv. split; [|reflexivity].
  do 2 eexists. unfold submit. rewrite handleSubmit_valid by assumption.
  cbv zeta. split; [reflexivity|]. repeat split.
  unfold run. destruct (afterAwait parse _ _) as [s1 log] eqn:E.
  unfold afterAwait in E. simpl.
  destruct (agent _ _) as [payload|]; [|now injection E as _ <-].
  destruct (Response.success _); [|now injection E as _ <-].
  destruct (Response.metadata _); [|now injection E as _ <-].
  destruct (Response.summary _) as [[|? ?]|]; now injection E as _ <-.
Qed.

Lemma submit_valid_input_witness :
  (exists s' resume,
     handleSubmit parseNothing (setUrl sampleUrl initialState)
     = Await s'
         (lit "Summarize this arXiv paper: "
          ++ extractArxivId (url (setUrl sampleUrl initialState)))
         (lit "68f24d4e811f17edf77d460e") resume
     /\ requestState s' = Loading
     /\ paperData s' = None
     /\ error s' = []
     /\ calls (snd (submit parseNothing (constantAgent Rejected)
                      (setUrl sampleUrl initialState)))
        = [CallAIAgent
             (lit "Summarize this arXiv paper: "
              ++ extractArxivId (url (setUrl sampleUrl initialState)))
             (lit "68f24d4e811f17edf77d460e")])
  /\ lit "Summarize this arXiv paper: " ++ extractArxivId sampleUrl
     = lit "Summarize this arXiv paper: 1234.56789".
Proof.
  apply (@submit_valid_input parseNothing (constantAgent Rejected)
           (setUrl sampleUrl initialState)).
  - simpl. discriminate.
  - reflexivity.
Defined.

Lemma submit_valid parse agent (s : AppState) :
  trim (url s) <> [] -> validateArxivUrl (url s) = true ->
  fst (submit parse agent s)
  = fst (afterAwait parse
           (setLoading true (setPaperData None (setError [] s)))
           (agent (lit "Summarize this arXiv paper: " ++ extractArxivId (url s))
              agentId)).
Proof.
  intros Ht Hv. unfold submit. rewrite handleSubmit_valid by assumption.
  cbv zeta. unfold run. now destruct (afterAwait parse _ _).
Qed.

(** C5.  When the input is valid and the network call raises, submitting
    ends in [Failed "An error occurred while processing the paper. Please
    try again."]. *)
Theorem submit_network_exception parse agent (s : AppState) :
  trim (url s) <> [] ->
  validateArxivUrl (url s) = true ->
  agent (lit "Summarize this arXiv paper: " ++ extractArxivId (url s))
    (lit "68f24d4e811f17edf77d460e") = Rejected ->
  requestState (fst (submit parse agent s))
  = Failed
      (lit "An error occurred while processing the paper. Please try again.").
Proof.
  intros Ht Hv Ho. rewrite submit_valid by assumption.
  unfold agentId. rewrite Ho. reflexivity.
Qed.

Lemma submit_network_exception_witness :
  requestState
    (fst (submit parseNothing (constantAgent Rejected)
            (setUrl sampleUrl initialState)))
  = Failed
      (lit "An error occurred while processing the paper. Please try again.").
Proof.
  apply (@submit_network_exception parseNothing (constantAgent Rejected)
           (setUrl sampleUrl initialState)).
  - simpl. discriminate.
  - reflexivity.
  - reflexivity.
Defined.

Lemma handleSubmit_Await_inv parse (s s' : AppState) msg a resume :
  handleSubmit parse s = Await s' msg a resume ->
  s' = setLoading true (setPaperData None (setError [] s))
  /\ resume = afterAwait parse s'.
Proof.
  unfold handleSubmit.
  destruct (negb (truthy (trim (url s)))); [discriminate|].
  destruct (negb (validateArxivUrl (url s))); [discriminate|].
  intros [= <- _ _ <-]. split; reflexivity.
Qed.

Lemma handleSubmit_Return_inv parse (s s' : AppState) :
  handleSubmit parse s = Return s' ->
  loading s' = loading s /\ url s' = url s /\ paperData s' = None.
Proof.
  unfold handleSubmit.
  destruct (negb (truthy (trim (url s)))); [now intros [= <-]|].
  destruct (negb (validateArxivUrl (url s))); [now intros [= <-]|].
  discriminate.
Qed.

(** C4.  Whenever [handleSubmit] suspends, the state is [Loading], and
    however the request settles (a payload that leads to success or to a
    handled failure, or a rejection) the resumed run ends with [loading]
    cleared; a submission started from a state that is not loading never
    ends in [Loading]. *)
Theorem loading_cleared parse (s : AppState) :
  (forall s' msg a resume,
     handleSubmit parse s = Await s' msg a resume ->
     requestState s' = Loading
     /\ forall o, loading (fst (resume o)) = false
                  /\ requestState (fst (resume o)) <> Loading)
  /\ (forall agent,
        loading s = false ->
        requestState (fst (submit parse agent s)) <> Loading).
Proof.
  assert (NL : forall t, loading t = false -> requestState t <> Loading).
  { intros t Ht. unfold requestState. rewrite Ht.
    destruct (paperData t); [discriminate|].
    destruct (error t); discriminate. }
  split.
  - intros s' msg a resume H.
    apply handleSubmit_Await_inv in H as [-> ->].
    split; [reflexivity|]. intros o.
    pose proof (afterAwait_loading parse
                  (setLoading true (setPaperData None (setError [] s))) o).
    auto.
  - intros agent Hl. apply NL. unfold submit.
    destruct (handleSubmit parse s) as [s'|s' msg a resume] eqn:E; simpl.
    + apply handleSubmit_Return_inv in E as (-> & _). exact Hl.
    + apply handleSubmit_Await_inv in E as [_ ->].
      pose proof (afterAwait_loading parse s' (agent msg a)) as L.
      now destruct (afterAwait parse s' (agent msg a)).
Qed.

Lemma loading_cleared_witness :
  (requestState (setLoading true (setUrl sampleUrl initialState)) = Loading
   /\ forall o,
        loading
          (fst (afterAwait parseNothing
                  (setLoading true (setUrl sampleUrl initialState)) o))
        = false
        /\ requestState
             (fst (afterAwait parseNothing
                     (setLoading true (setUrl sampleUrl initialState)) o))
           <> Loading)
  /\ requestState
       (fst (submit parseNothing (constantAgent (Fulfilled (lit "not json")))
               (setUrl sampleUrl initialState)))
     <> Loading.
Proof.
  split.
  - apply (proj1 (loading_cleared parseNothing (setUrl sampleUrl initialState))
             (setLoading true (setUrl sampleUrl initialState))
             (lit "Summarize this arXiv paper: 1234.56789") agentId
             (afterAwait parseNothing
                (setLoading true (setUrl sampleUrl initialState)))).
    reflexivity.
  - apply (proj2 (loading_cleared parseNothing (setUrl sampleUrl initialState))
             (constantAgent (Fulfilled (lit "not json")))).
    reflexivity.
Defined.

(** What the resumed run makes of a fulfilled request, by the test of the
    [if]: a truthy [success], a [metadata] object and a non-empty
    [summary]. *)
Lemma afterAwait_success parse (s : AppState) payload md sm :
  Response.success (parseLLMJson parse payload parseFallback) = true ->
  Response.metadata (Response.data (parseLLMJson parse payload parseFallback))
  = Some md ->
  Response.summary (Response.data (parseLLMJson parse payload parseFallback))
  = Some sm ->
  sm <> [] ->
  fst (afterAwait parse s (Fulfilled payload))
  = setLoading false
      (setPaperData (Some {| Paper.metadata := md; Paper.summary := sm |}) s).
Proof.
  intros Hs Hm Hsm Hne. unfold afterAwait. rewrite Hs, Hm, Hsm.
  destruct sm; [congruence | reflexivity].
Qed.

Lemma afterAwait_paperData parse (s : AppState) (o : Outcome) d :
  paperData s = None ->
  paperData (fst (afterAwait parse s o)) = Some d ->
  exists payload,
    o = Fulfilled payload
    /\ Response.success (parseLLMJson parse payload parseFallback) = true
    /\ Response.metadata
         (Response.data (parseLLMJson parse payload parseFallback))
       = Some (Paper.metadata d)
    /\ Response.summary
         (Response.data (parseLLMJson parse payload parseFallback))
       = Some (Paper.summary d)
    /\ Paper.summary d <> [].
Proof.
  intros Hn. unfold afterAwait.
  destruct o as [payload|]; simpl; [|congruence].
  destruct (Response.success _) eqn:Hs; simpl; [|congruence].
  destruct (Response.metadata _) as [md|] eqn:Hm; simpl; [|congruence].
  destruct (Response.summary _) as [[|a sm]|] eqn:Hsm; simpl; try congruence.
  intros [= <-]. exists payload. simpl. repeat split; auto. discriminate.
Qed.

Lemma reachable_summary parse (s : AppState) :
  reachable parse s ->
  forall d, paperData s = Some d -> Paper.summary d <> [].
Proof.
  induction 1 as [|v s _ IH|s s' _ _ E|s s' msg a k _ _ E|s s' msg a k o _ _ E];
    intros d Hd.
  - discriminate.
  - now apply IH.
  - apply handleSubmit_Return_inv in E as (_ & _ & E). congruence.
  - apply handleSubmit_Await_inv in E as [-> _]. discriminate.
  - apply handleSubmit_Await_inv in E as [-> ->].
    apply afterAwait_paperData in Hd as (_ & _ & _ & _ & _ & Hne);
      [exact Hne | reflexivity].
Qed.

(** C1, as stated, fails on a successful result whose summary is present
    but empty: the empty string is falsy, so the run ends in [Failed]. *)
Lemma submit_empty_summary_not_succeeded :
  Response.success (response true (Some sampleMetadata) (Some []) None) = true
  /\ Response.metadata
       (Response.data (response true (Some sampleMetadata) (Some []) None))
     = Some sampleMetadata
  /\ Response.summary
       (Response.data (response true (Some sampleMetadata) (Some []) None))
     = Some []
  /\ requestState
       (fst (submit
               (parseAs (response true (Some sampleMetadata) (Some []) None))
               (constantAgent (Fulfilled (lit "{}")))
               (setUrl sampleUrl initialState)))
     = Failed (lit "Failed to summarize paper")
  /\ requestState
       (fst (submit
               (parseAs (response true (Some sampleMetadata) (Some []) None))
               (constantAgent (Fulfilled (lit "{}")))
               (setUrl sampleUrl initialState)))
     <> Succeeded sampleMetadata [].
Proof.
  repeat split; discriminate.
Qed.

(** C1, amended.  If the parsed result signals success, its metadata is
    present and its summary is present and not empty, submitting a valid
    input ends in [Succeeded] with exactly that metadata and that summary.
    Conversely a submission that ends in [Succeeded] got such a result, and
    in every reachable state that is [Succeeded] the summary is not
    empty. *)
Theorem submit_success parse :
  (forall agent (s : AppState) payload md sm,
     trim (url s) <> [] ->
     validateArxivUrl (url s) = true ->
     agent (lit "Summarize this arXiv paper: " ++ extractArxivId (url s))
       (lit "68f24d4e811f17edf77d460e") = Fulfilled payload ->
     Response.success (parseLLMJson parse payload parseFallback) = true ->
     Response.metadata
       (Response.data (parseLLMJson parse payload parseFallback)) = Some md ->
     Response.summary
       (Response.data (parseLLMJson parse payload parseFallback)) = Some sm ->
     sm <> [] ->
     requestState (fst (submit parse agent s)) = Succeeded md sm)
  /\ (forall agent (s : AppState) md sm,
        requestState (fst (submit parse agent s)) = Succeeded md sm ->
        exists payload,
          agent (lit "Summarize this arXiv paper: " ++ extractArxivId (url s))
            (lit "68f24d4e811f17edf77d460e") = Fulfilled payload
          /\ Response.success (parseLLMJson parse payload parseFallback)
             = true
          /\ Response.metadata
               (Response.data (parseLLMJson parse payload parseFallback))
             = Some md
          /\ Response.summary
               (Response.data (parseLLMJson parse payload parseFallback))
             = Some sm
          /\ sm <> [])
  /\ (forall (s : AppState) md sm,
        reachable parse s -> requestState s = Succeeded md sm -> sm <> []).
Proof.
  assert (Inv : forall t md sm,
             requestState t = Succeeded md sm ->
             exists d, paperData t = Some d
                       /\ Paper.metadata d = md /\ Paper.summary d = sm).
  { intros t md sm. unfold requestState.
    destruct (loading t); [discriminate|].
    destruct (paperData t) as [d|].
    - intros [= <- <-]. now exists d.
    - destruct (error t); discriminate. }
  split; [|split].
  - intros agent s payload md sm Ht Hv Ho Hs Hm Hsm Hne.
    rewrite submit_valid by assumption. unfold agentId. rewrite Ho.
    erewrite afterAwait_success by eassumption. reflexivity.
  - intros agent s md sm H.
    apply Inv in H as (d & Hd & <- & <-).
    destruct (list_eq_dec N.eq_dec (trim (url s)) []) as [Ht|Ht].
    { unfold submit in Hd. rewrite handleSubmit_blank in Hd by assumption.
      discriminate. }
    destruct (validateArxivUrl (url s)) eqn:Hv.
    + rewrite submit_valid in Hd by assumption.
      apply afterAwait_paperData in Hd as (payload & Ho & Hrest);
        [|reflexivity].
      exists payload. split; [exact Ho | exact Hrest].
    + unfold submit in Hd. rewrite handleSubmit_malformed in Hd by assumption.
      discriminate.
  - intros s md sm Hr H. apply Inv in H as (d & Hd & _ & <-).
    eapply reachable_summary; eauto.
Qed.

Lemma submit_success_witness :
  requestState
    (fst (submit
            (parseAs (response true (Some sampleMetadata) (Some (lit "X"))
                        None))
            (constantAgent (Fulfilled (lit "{}")))
            (setUrl sampleUrl initialState)))
  = Succeeded sampleMetadata (lit "X")
  /\ (exists payload,
        constantAgent (Fulfilled (lit "{}"))
          (lit "Summarize this arXiv paper: "
           ++ extractArxivId (url (setUrl sampleUrl initialState)))
          (lit "68f24d4e811f17edf77d460e") = Fulfilled payload
        /\ Response.success
             (parseLLMJson
                (parseAs (response true (Some sampleMetadata)
                            (Some (lit "X")) None))
                payload parseFallback) = true
        /\ Response.metadata
             (Response.data
                (parseLLMJson
                   (parseAs (response true (Some sampleMetadata)
                               (Some (lit "X")) None))
                   payload parseFallback)) = Some sampleMetadata
        /\ Response.summary
             (Response.data
                (parseLLMJson
                   (parseAs (response true (Some sampleMetadata)
                               (Some (lit "X")) None))
                   payload parseFallback)) = Some (lit "X")
        /\ lit "X" <> [])
  /\ lit "X" <> [].
Proof.
  split; [|split].
  - apply (proj1 (submit_success
                    (parseAs (response true (Some sampleMetadata)
                                (Some (lit "X")) None)))
             (constantAgent (Fulfilled (lit "{}")))
             (setUrl sampleUrl initialState) (lit "{}")).
    + simpl. discriminate.
    + reflexivity.
    + reflexivity.
    + reflexivity.
    + reflexivity.
    + reflexivity.
    + discriminate.
  - apply (proj1 (proj2 (submit_success
                           (parseAs (response true (Some sampleMetadata)
                                       (Some (lit "X")) None))))
             (constantAgent (Fulfilled (lit "{}")))
             (setUrl sampleUrl initialState)).
    reflexivity.
  - apply (proj2 (proj2 (submit_success
                           (parseAs (response true (Some sampleMetadata)
                                       (Some (lit "X")) None))))
             (fst (submit
                     (parseAs (response true (Some sampleMetadata)
                                 (Some (lit "X")) None))
                     (constantAgent (Fulfilled (lit "{}")))
                     (setUrl sampleUrl initialState)))
             sampleMetadata).
    + apply (@reach_settle _ (setUrl sampleUrl initialState)
               (setLoading true (setUrl sampleUrl initialState))
               (lit "Summarize this arXiv paper: 1234.56789") agentId
               (afterAwait
                  (parseAs (response true (Some sampleMetadata)
                              (Some (lit "X")) None))
                  (setLoading true (setUrl sampleUrl initialState)))
               (Fulfilled (lit "{}"))).
      * apply reach_setUrl, reach_initial.
      * reflexivity.
    + reflexivity.
Defined.

Lemma afterAwait_failure parse (s : AppState) payload :
  ~ (Response.success (parseLLMJson parse payload parseFallback) = true
     /\ (exists md,
           Response.metadata
             (Response.data (parseLLMJson parse payload parseFallback))
           = Some md)
     /\ (exists sm,
           Response.summary
             (Response.data (parseLLMJson parse payload parseFallback))
           = Some sm /\ sm <> [])) ->
  fst (afterAwait parse s (Fulfilled payload))
  = setLoading false
      (setError
         (match Response.error
                  (Response.data (parseLLMJson parse payload parseFallback))
          with
          | Some (c :: e) => c :: e
          | _ => lit "Failed to summarize paper"
          end) s).
Proof.
  intros H. unfold afterAwait.
  destruct (Response.success _); [|reflexivity].
  destruct (Response.metadata _) as [md|]; [|reflexivity].
  destruct (Response.summary _) as [[|a sm]|]; try reflexivity.
  exfalso. apply H. repeat split; eauto. eexists. split; [reflexivity|].
  discriminate.
Qed.

(** C2, as stated, fails on a result whose error message is present but
    empty: the empty string is falsy, so the generic message is shown. *)
Lemma submit_empty_error_not_kept :
  Response.success (response false None None (Some [])) = false
  /\ Response.error (Response.data (response false None None (Some [])))
     = Some []
  /\ requestState
       (fst (submit (parseAs (response false None None (Some [])))
               (constantAgent (Fulfilled (lit "{}")))
               (setUrl sampleUrl initialState)))
     = Failed (lit "Failed to summarize paper")
  /\ requestState
       (fst (submit (parseAs (response false None None (Some [])))
               (constantAgent (Fulfilled (lit "{}")))
               (setUrl sampleUrl initialState)))
     <> Failed [].
Proof.
  repeat split; discriminate.
Qed.

(** C2, amended.  If the parsed result does not have success, metadata and
    a non-empty summary all together, submitting a valid input ends in
    [Failed] with the parsed error message when that is present and not
    empty, and with "Failed to summarize paper" otherwise.  A payload that
    cannot be parsed is read as the fallback value, and the run ends in
    [Failed "Failed to parse response"]. *)
Theorem submit_failure parse :
  (forall agent (s : AppState) payload,
     trim (url s) <> [] ->
     validateArxivUrl (url s) = true ->
     agent (lit "Summarize this arXiv paper: " ++ extractArxivId (url s))
       (lit "68f24d4e811f17edf77d460e") = Fulfilled payload ->
     ~ (Response.success (parseLLMJson parse payload parseFallback) = true
        /\ (exists md,
              Response.metadata
                (Response.data (parseLLMJson parse payload parseFallback))
              = Some md)
        /\ (exists sm,
              Response.summary
                (Response.data (parseLLMJson parse payload parseFallback))
              = Some sm /\ sm <> [])) ->
     (forall e,
        Response.error
          (Response.data (parseLLMJson parse payload parseFallback)) = Some e ->
        e <> [] ->
        requestState (fst (submit parse agent s)) = Failed e)
     /\ (Response.error
           (Response.data (parseLLMJson parse payload parseFallback)) = None
         \/ Response.error
              (Response.data (parseLLMJson parse payload parseFallback))
            = Some [] ->
         requestState (fst (submit parse agent s))
         = Failed (lit "Failed to summarize paper")))
  /\ (forall agent (s : AppState) payload,
        trim (url s) <> [] ->
        validateArxivUrl (url s) = true ->
        agent (lit "Summarize this arXiv paper: " ++ extractArxivId (url s))
          (lit "68f24d4e811f17edf77d460e") = Fulfilled payload ->
        parse payload = None ->
        parseLLMJson parse payload parseFallback = parseFallback
        /\ requestState (fst (submit parse agent s))
           = Failed (lit "Failed to parse response")).
Proof.
  split.
  - intros agent s payload Ht Hv Ho Hc.
    rewrite submit_valid by assumption. unfold agentId. rewrite Ho.
    rewrite afterAwait_failure by exact Hc. split.
    + intros e -> Hne. destruct e; [congruence | reflexivity].
    + intros [-> | ->]; reflexivity.
  - intros agent s payload Ht Hv Ho Hp.
    assert (E : parseLLMJson parse payload parseFallback = parseFallback)
      by (unfold parseLLMJson; now rewrite Hp).
    split; [exact E|].
    rewrite submit_valid by assumption. unfold agentId. rewrite Ho.
    rewrite afterAwait_failure; rewrite E; [reflexivity|].
    intros [H _]. discriminate.
Qed.

Lemma submit_failure_witness :
  requestState
    (fst (submit (parseAs (response true None None None))
            (constantAgent (Fulfilled (lit "{}")))
            (setUrl sampleUrl initialState)))
  = Failed (lit "Failed to summarize paper")
  /\ requestState
       (fst (submit
               (parseAs (response false None None (Some (lit "Not found"))))
               (constantAgent (Fulfilled (lit "{}")))
               (setUrl sampleUrl initialState)))
     = Failed (lit "Not found")
  /\ requestState
       (fst (submit parseNothing (constantAgent (Fulfilled (lit "not json")))
               (setUrl sampleUrl initialState)))
     = Failed (lit "Failed to parse response").
Proof.
  split; [|split].
  - apply (proj1 (submit_failure (parseAs (response true None None None)))
             (constantAgent (Fulfilled (lit "{}")))
             (setUrl sampleUrl initialState) (lit "{}")).
    + simpl. discriminate.
    + reflexivity.
    + reflexivity.
    + intros (_ & (md & H) & _). discriminate.
    + left. reflexivity.
  - apply (proj1 (submit_failure
                    (parseAs (response false None None
                                (Some (lit "Not found")))))
             (constantAgent (Fulfilled (lit "{}")))
             (setUrl sampleUrl initialState) (lit "{}")).
    + simpl. discriminate.
    + reflexivity.
    + reflexivity.
    + intros (H & _). discriminate.
    + reflexivity.
    + discriminate.
  - apply (proj2 (submit_failure parseNothing)
             (constantAgent (Fulfilled (lit "not json")))
             (setUrl sampleUrl initialState) (lit "not json")).
    + simpl. discriminate.
    + reflexivity.
    + reflexivity.
    + reflexivity.
Defined.

Lemma afterAwait_url parse (s : AppState) (o : Outcome) :
  url (fst (afterAwait parse s o)) = url s.
Proof.
  unfold afterAwait. destruct o as [payload|]; [|reflexivity].
  destruct (Response.success _); [|reflexivity].
  destruct (Response.metadata _); [|reflexivity].
  destruct (Response.summary _) as [[|? ?]|]; reflexivity.
Qed.

(** C9.  Submitting again from the state a submission ended in, against
    the same collaborator, ends in the same state with the same events, so
    the request state ([Succeeded] or [Failed] with their contents) is the
    same in both runs. *)
Theorem resubmit_same parse agent (s : AppState) :
  submit parse agent (fst (submit parse agent s)) = submit parse agent s
  /\ requestState (fst (submit parse agent (fst (submit parse agent s))))
     = requestState (fst (submit parse agent s)).
Proof.
  assert (E : submit parse agent (fst (submit parse agent s))
              = submit parse agent s); [|now rewrite E].
  destruct (list_eq_dec N.eq_dec (trim (url s)) []) as [Ht|Ht].
  { unfold submit. rewrite (handleSubmit_blank parse s Ht). simpl.
    rewrite handleSubmit_blank by exact Ht. reflexivity. }
  destruct (validateArxivUrl (url s)) eqn:Hv.
  - assert (U : url (fst (submit parse agent s)) = url s)
      by (rewrite submit_valid by assumption; now rewrite afterAwait_url).
    unfold submit at 1 3.
    rewrite (handleSubmit_valid parse s Ht Hv).
    rewrite handleSubmit_valid by (rewrite U; assumption).
    cbv zeta. rewrite U. unfold setLoading, setPaperData, setError. simpl.
    rewrite U. reflexivity.
  - unfold submit. rewrite (handleSubmit_malformed parse s Ht Hv). simpl.
    rewrite handleSubmit_malformed by assumption. reflexivity.
Qed.

(** ** More on the pattern: characters, uniqueness of a match *)

Lemma is_id_char_not_white_space (c : char16) :
  is_id_char c = true -> is_white_space c = false.
Proof.
  unfold is_id_char, is_digit, is_white_space. intros H.
  apply orb_true_iff in H as [H | H].
  - apply orb_true_iff in H as [H | H].
    + apply andb_true_iff in H as [H1 H2].
      apply N.leb_le in H1, H2.
      repeat match goal with
             | |- context [N.eqb c ?n] =>
                 destruct (N.eqb_spec c n); [lia|]
             | |- context [N.leb ?a ?b] =>
                 destruct (N.leb_spec a b); [try lia|]
             end; reflexivity.
    + apply N.eqb_eq in H as ->. reflexivity.
  - apply N.eqb_eq in H as ->. reflexivity.
Qed.

Lemma digits_id_chars (d : jsstring) :
  digits d -> Forall (fun c => is_id_char c = true) d.
Proof.
  intros [_ H]. eapply Forall_impl; [|exact H].
  intros c Hc. unfold is_id_char. now rewrite Hc.
Qed.

Lemma id_shape_chars (id : jsstring) :
  id_shape id -> Forall (fun c => is_id_char c = true) id.
Proof.
  intros (d & frac & ver & -> & Hd & Hfrac & Hver).
  apply Forall_app. split; [now apply digits_id_chars|].
  apply Forall_app. split.
  - destruct Hfrac as [-> | (d2 & -> & Hd2)]; [constructor|].
    constructor; [reflexivity | now apply digits_id_chars].
  - destruct Hver as [-> | (d3 & -> & Hd3)]; [constructor|].
    constructor; [reflexivity | now apply digits_id_chars].
Qed.

(** The twelve forms of the part before the identifier. *)
Lemma location_shape_cases (loc : jsstring) :
  location_shape loc ->
  In loc
     [lit "arxiv.org/abs/"; lit "arxiv.org/pdf/";
      lit "www.arxiv.org/abs/"; lit "www.arxiv.org/pdf/";
      lit "http://arxiv.org/abs/"; lit "http://arxiv.org/pdf/";
      lit "http://www.arxiv.org/abs/"; lit "http://www.arxiv.org/pdf/";
      lit "https://arxiv.org/abs/"; lit "https://arxiv.org/pdf/";
      lit "https://www.arxiv.org/abs/"; lit "https://www.arxiv.org/pdf/"].
Proof.
  intros (scheme & www & kind & -> & Hs & Hw & Hk).
  destruct Hs as [-> | [-> | ->]], Hw as [-> | ->], Hk as [-> | ->];
    vm_compute; tauto.
Qed.

Lemma location_shape_no_white_space (loc : jsstring) :
  location_shape loc -> Forall (fun c => is_white_space c = false) loc.
Proof.
  intros H. apply location_shape_cases in H. simpl in H.
  repeat (destruct H as [<- | H]; [repeat constructor|]). destruct H.
Qed.

(** At a given place of a string the part before the identifier can be read
    in one way only. *)
Lemma location_shape_unique (l1 l2 r1 r2 : jsstring) :
  location_shape l1 -> location_shape l2 ->
  l1 ++ r1 = l2 ++ r2 -> l1 = l2.
Proof.
  intros H1 H2 E.
  apply location_shape_cases in H1, H2. simpl in H1, H2.
  repeat (destruct H1 as [<- | H1];
          [repeat (destruct H2 as [<- | H2];
                   [first [reflexivity | vm_compute in E; discriminate E]|]);
           destruct H2|]).
  destruct H1.
Qed.

Lemma app_eq_length_inv {A} (a1 a2 b1 b2 : list A) :
  a1 ++ b1 = a2 ++ b2 -> length a1 = length a2 -> a1 = a2 /\ b1 = b2.
Proof.
  revert a2; induction a1 as [|x a1 IH]; intros [|y a2] E L;
    simpl in *; try discriminate.
  - auto.
  - injection E as -> E. injection L as L.
    destruct (IH _ E L) as [-> ->]. auto.
Qed.

(** The first occurrence of the shape with the longest identifier there
    determines the result of [extractArxivId]. *)
Lemma extractArxivId_unique (u pre loc id post : jsstring) :
  shape_at pre loc id post u -> leftmost pre u -> longest id post ->
  extractArxivId u = id.
Proof.
  intros Hs Hl Hg. unfold extractArxivId.
  destruct (exec arxivRegex u) as [c|] eqn:X.
  2:{ exfalso. apply exec_arxiv_None in X. apply X.
      now exists pre, loc, id, post. }
  apply exec_arxiv_group in X
    as (pre' & loc' & id' & post' & Hs' & Hl' & Hg' & ->).
  pose proof (Hl _ _ _ _ Hs') as L1. pose proof (Hl' _ _ _ _ Hs) as L2.
  destruct Hs as (E & Hloc & Hid), Hs' as (E' & Hloc' & Hid').
  rewrite E in E'.
  apply app_eq_length_inv in E' as [_ E']; [|lia].
  pose proof (location_shape_unique _ _ Hloc Hloc' E') as <-.
  apply app_inv_head in E'.
  pose proof (Hg _ _ E' Hid') as G1.
  pose proof (Hg' _ _ (eq_sym E') Hid) as G2.
  apply app_eq_length_inv in E' as [E' _]; [|lia]. now symmetry.
Qed.

Lemma longest_terminated (id post : jsstring) :
  match post with [] => True | c :: _ => is_id_char c = false end ->
  longest id post.
Proof.
  intros Hp id' post' E Hid'.
  apply app_eq_app in E as (l & [[-> _] | [-> Ep]]).
  - rewrite length_app. lia.
  - destruct l as [|c l]; [rewrite app_nil_r; lia|]. exfalso.
    subst post. apply id_shape_chars in Hid'.
    apply Forall_app in Hid' as [_ Hid']. inversion Hid'; subst. congruence.
Qed.

(** X1.  Round trip: a URL built from one of the twelve forms of location
    and an identifier, followed by nothing or by a character that cannot
    continue an identifier, is accepted by [validateArxivUrl], and
    [extractArxivId] gives back exactly that identifier. *)
Theorem extractArxivId_round_trip (loc id post : jsstring) :
  location_shape loc ->
  id_shape id ->
  match post with [] => True | c :: _ => is_id_char c = false end ->
  validateArxivUrl (loc ++ id ++ post) = true
  /\ extractArxivId (loc ++ id ++ post) = id.
Proof.
  intros Hloc Hid Hp.
  assert (Hs : shape_at [] loc id post (loc ++ id ++ post))
    by (repeat split; assumption).
  split.
  - apply validateArxivUrl_true. now exists [], loc, id, post.
  - apply (extractArxivId_unique Hs).
    + intros pre' loc' id' post' _. simpl. lia.
    + now apply longest_terminated.
Qed.

Lemma id_shape_sample : id_shape (lit "2101.00001v2").
Proof.
  exists (lit "2101"), (lit ".00001"), (lit "v2").
  split; [reflexivity|]. split; [split; [discriminate | repeat constructor]|].
  split; right.
  - exists (lit "00001"). split; [reflexivity|].
    split; [discriminate | repeat constructor].
  - exists (lit "2"). split; [reflexivity|].
    split; [discriminate | repeat constructor].
Defined.

Lemma location_shape_sample : location_shape (lit "https://www.arxiv.org/pdf/").
Proof.
  exists (lit "https://"), (lit "www."), (lit "pdf").
  split; [reflexivity|]. repeat split; auto.
Defined.

Lemma extractArxivId_round_trip_witness :
  validateArxivUrl
    (lit "https://www.arxiv.org/pdf/" ++ lit "2101.00001v2" ++ lit "?download")
  = true
  /\ extractArxivId
       (lit "https://www.arxiv.org/pdf/" ++ lit "2101.00001v2"
        ++ lit "?download")
     = lit "2101.00001v2".
Proof.
  apply (@extractArxivId_round_trip (lit "https://www.arxiv.org/pdf/")
           (lit "2101.00001v2") (lit "?download")).
  - exact location_shape_sample.
  - exact id_shape_sample.
  - reflexivity.
Defined.

(** X2.  Validation is not anchored: text before and after a string that
    validates never makes it fail. *)
Theorem validateArxivUrl_in_context (pre u post : jsstring) :
  validateArxivUrl u = true ->
  validateArxivUrl (pre ++ u ++ post) = true.
Proof.
  intros H. apply validateArxivUrl_true in H
    as (pre' & loc & id & post' & -> & Hloc & Hid).
  apply validateArxivUrl_true.
  exists (pre ++ pre'), loc, id, (post' ++ post).
  repeat split; [|assumption|assumption].
  now rewrite <- !app_assoc.
Qed.

Lemma validateArxivUrl_in_context_witness :
  validateArxivUrl (lit "see " ++ sampleUrl ++ lit " (preprint)") = true.
Proof.
  apply (@validateArxivUrl_in_context (lit "see ") sampleUrl
           (lit " (preprint)")).
  reflexivity.
Defined.

(** X3.  The identifier alone is never a valid input: whatever
    [extractArxivId] returns is rejected by [validateArxivUrl], and
    extracting from it gives the empty string. *)
Theorem extractArxivId_not_valid (u : jsstring) :
  validateArxivUrl (extractArxivId u) = false
  /\ extractArxivId (extractArxivId u) = [].
Proof.
  assert (H : ~ matches_shape (extractArxivId u)).
  { unfold extractArxivId.
    destruct (exec arxivRegex u) as [c|] eqn:X.
    - apply exec_arxiv_group in X as (pre & loc & id & post & Hs & _ & _ & ->).
      destruct Hs as (_ & _ & Hid). apply id_shape_chars in Hid.
      intros (pre' & loc' & id' & post' & E & Hloc' & _). rewrite E in Hid.
      apply Forall_app in Hid as [_ Hid].
      apply Forall_app in Hid as [Hid _].
      apply location_shape_cases in Hloc'. simpl in Hloc'.
      repeat (destruct Hloc' as [<- | Hloc'];
              [inversion Hid; discriminate|]).
      destruct Hloc'.
    - intros (pre' & loc' & id' & post' & E & Hloc' & _).
      symmetry in E. apply app_eq_nil in E as [_ E].
      apply app_eq_nil in E as [-> _].
      apply location_shape_cases in Hloc'. simpl in Hloc'.
      repeat (destruct Hloc' as [Hloc' | Hloc']; [discriminate|]).
      destruct Hloc'. }
  split; [now apply validateArxivUrl_false|].
  unfold extractArxivId at 1. apply exec_arxiv_None in H. now rewrite H.
Qed.

(** ** White space around the input *)

Lemma trimStart_split (u : jsstring) :
  exists w, u = w ++ trimStart u /\ Forall (fun c => is_white_space c = true) w.
Proof.
  induction u as [|c u (w & E & Hw)]; simpl.
  - exists []. split; [reflexivity | constructor].
  - destruct (is_white_space c) eqn:Hc.
    + exists (c :: w). split; [simpl; congruence | now constructor].
    + exists []. split; [reflexivity | constructor].
Qed.

Lemma trim_split (u : jsstring) :
  exists w1 w2,
    u = w1 ++ trim u ++ w2
    /\ Forall (fun c => is_white_space c = true) w1
    /\ Forall (fun c => is_white_space c = true) w2.
Proof.
  destruct (trimStart_split u) as (w1 & E1 & H1).
  destruct (trimStart_split (rev (trimStart u))) as (w2 & E2 & H2).
  exists w1, (rev w2). unfold trim, trimEnd.
  split; [|split; [exact H1 | now apply Forall_rev]].
  rewrite <- rev_app_distr, <- E2, rev_involutive. exact E1.
Qed.

Lemma trim_nil (u : jsstring) :
  trim u = [] <-> Forall (fun c => is_white_space c = true) u.
Proof.
  split; [|apply trim_white_space].
  intros H. destruct (trim_split u) as (w1 & w2 & E & H1 & H2).
  rewrite H in E. rewrite E. apply Forall_app. auto.
Qed.

Lemma matches_shape_not_blank (u : jsstring) :
  matches_shape u -> trim u <> [].
Proof.
  intros (pre & loc & id & post & -> & _ & Hid) H.
  apply trim_nil in H.
  apply Forall_app in H as [_ H]. apply Forall_app in H as [_ H].
  apply Forall_app in H as [H _].
  pose proof (id_shape_nonempty Hid) as Hne.
  apply id_shape_chars in Hid.
  destruct id as [|c id]; [congruence|].
  inversion H; subst. inversion Hid; subst.
  match goal with
  | X : is_id_char c = true |- _ =>
      apply is_id_char_not_white_space in X; congruence
  end.
Qed.

Lemma location_shape_head (loc : jsstring) :
  location_shape loc ->
  exists a r, loc = a :: r /\ is_white_space a = false.
Proof.
  intros H. pose proof (location_shape_no_white_space H) as Hw.
  destruct loc as [|a r].
  - apply location_shape_cases in H. simpl in H.
    repeat (destruct H as [H | H]; [discriminate|]). destruct H.
  - exists a, r. inversion Hw; subst. auto.
Qed.

Lemma exec_skip_white_space (c : char16) (u : jsstring) :
  is_white_space c = true -> exec arxivRegex (c :: u) = exec arxivRegex u.
Proof.
  intros Hc. rewrite exec_eq.
  destruct (m (Group 0 arxivRegex) (c :: u) no_captures _) as [x|] eqn:E;
    [|reflexivity].
  exfalso. apply m_arxiv_Some in E as (loc & id & post & E & Hloc & _).
  apply location_shape_head in Hloc as (a & r & -> & Ha).
  injection E as -> _. congruence.
Qed.

Lemma exec_trim_left (w u : jsstring) :
  Forall (fun c => is_white_space c = true) w ->
  exec arxivRegex (w ++ u) = exec arxivRegex u.
Proof.
  induction 1 as [|c w Hc _ IH]; [reflexivity|].
  change ((c :: w) ++ u) with (c :: (w ++ u)).
  now rewrite exec_skip_white_space.
Qed.

(** An occurrence of the shape in a string followed by white space lies
    in the string. *)
Lemma shape_at_strip_right (pre loc id post u w : jsstring) :
  Forall (fun c => is_white_space c = true) w ->
  shape_at pre loc id post (u ++ w) ->
  exists post0, post = post0 ++ w /\ shape_at pre loc id post0 u.
Proof.
  intros Hw (E & Hloc & Hid).
  rewrite (app_assoc loc), (app_assoc pre) in E.
  apply app_eq_app in E as (l & [[E1 E2] | [E1 E2]]).
  - exists l. split; [exact E2|]. repeat split; auto.
    now rewrite E1, <- !app_assoc.
  - destruct l as [|x l _] using rev_ind.
    + exists []. rewrite app_nil_r in E1. simpl in E2.
      split; [now rewrite E2|]. split; [|split; assumption].
      now rewrite <- E1, app_nil_r.
    + exfalso. subst w. apply Forall_app in Hw as [Hw _].
      apply Forall_app in Hw as [_ Hw]. inversion Hw; subst.
      pose proof (id_shape_nonempty Hid) as Hne.
      apply id_shape_chars in Hid.
      destruct (exists_last Hne) as (id0 & y & ->).
      apply Forall_app in Hid as [_ Hid]. inversion Hid; subst.
      rewrite !app_assoc in E1. apply app_inj_tail in E1 as [_ <-].
      match goal with
      | X : is_id_char y = true |- _ =>
          apply is_id_char_not_white_space in X; congruence
      end.
Qed.

Lemma matches_shape_trim_right (u w : jsstring) :
  Forall (fun c => is_white_space c = true) w ->
  matches_shape (u ++ w) <-> matches_shape u.
Proof.
  intros Hw. split.
  - intros (pre & loc & id & post & H).
    apply shape_at_strip_right in H; [|exact Hw].
    destruct H as (post0 & _ & H).
    now exists pre, loc, id, post0.
  - intros (pre & loc & id & post & -> & Hloc & Hid).
    exists pre, loc, id, (post ++ w). repeat split; auto.
    now rewrite <- !app_assoc.
Qed.

Lemma extractArxivId_trim_right (u w : jsstring) :
  Forall (fun c => is_white_space c = true) w ->
  extractArxivId (u ++ w) = extractArxivId u.
Proof.
  intros Hw. unfold extractArxivId at 2.
  destruct (exec arxivRegex u) as [c|] eqn:X.
  - apply exec_arxiv_group in X
      as (pre & loc & id & post & Hs & Hl & Hg & ->).
    apply (@extractArxivId_unique _ pre loc id (post ++ w)).
    + destruct Hs as (-> & Hloc & Hid). repeat split; auto.
      now rewrite <- !app_assoc.
    + intros pre' loc' id' post' H.
      apply shape_at_strip_right in H; [|exact Hw].
      destruct H as (post0 & _ & H).
      eapply Hl; eauto.
    + intros id' post' E Hid'.
      destruct Hs as (Eu & Hloc & Hid).
      assert (H : shape_at pre loc id' post' (u ++ w)).
      { repeat split; auto. rewrite Eu, <- !app_assoc.
        do 2 f_equal. exact E. }
      apply shape_at_strip_right in H; [|exact Hw].
      destruct H as (post0 & -> & (Eu' & _)).
      apply (Hg id' post0); [|exact Hid'].
      rewrite Eu in Eu'. now apply app_inv_head, app_inv_head in Eu'.
  - apply exec_arxiv_None in X.
    rewrite <- (matches_shape_trim_right u Hw) in X.
    apply exec_arxiv_None in X. unfold extractArxivId. now rewrite X.
Qed.

(** X4.  White space around the input changes neither validation nor the
    extracted identifier; in particular it makes no difference that
    [handleSubmit] tests the trimmed input and then validates and extracts
    from the untrimmed one. *)
Theorem white_space_around_input (u : jsstring) :
  (forall w1 w2,
     Forall (fun c => is_white_space c = true) w1 ->
     Forall (fun c => is_white_space c = true) w2 ->
     validateArxivUrl (w1 ++ u ++ w2) = validateArxivUrl u
     /\ extractArxivId (w1 ++ u ++ w2) = extractArxivId u)
  /\ validateArxivUrl (trim u) = validateArxivUrl u
  /\ extractArxivId (trim u) = extractArxivId u.
Proof.
  assert (P : forall v w1 w2,
             Forall (fun c => is_white_space c = true) w1 ->
             Forall (fun c => is_white_space c = true) w2 ->
             validateArxivUrl (w1 ++ v ++ w2) = validateArxivUrl v
             /\ extractArxivId (w1 ++ v ++ w2) = extractArxivId v).
  { intros v w1 w2 H1 H2. split.
    - unfold validateArxivUrl, test. rewrite exec_trim_left by exact H1.
      fold (test arxivRegex (v ++ w2)). fold (test arxivRegex v).
      fold (validateArxivUrl (v ++ w2)). fold (validateArxivUrl v).
      destruct (validateArxivUrl v) eqn:V.
      + apply validateArxivUrl_true. apply matches_shape_trim_right; auto.
        now apply validateArxivUrl_true.
      + apply validateArxivUrl_false. rewrite matches_shape_trim_right by auto.
        now apply validateArxivUrl_false.
    - unfold extractArxivId at 1. rewrite exec_trim_left by exact H1.
      fold (extractArxivId (v ++ w2)). now apply extractArxivId_trim_right. }
  split; [apply P|].
  destruct (trim_split u) as (w1 & w2 & E & H1 & H2).
  destruct (P (trim u) w1 w2 H1 H2) as [V X].
  rewrite <- E in V, X. split; congruence.
Qed.

Lemma white_space_around_input_witness :
  validateArxivUrl (lit "  " ++ sampleUrl ++ lit " ") = validateArxivUrl sampleUrl
  /\ extractArxivId (lit "  " ++ sampleUrl ++ lit " ")
     = extractArxivId sampleUrl.
Proof.
  apply (proj1 (white_space_around_input sampleUrl) (lit "  ") (lit " ")).
  - repeat constructor.
  - repeat constructor.
Defined.

(** ** More on submissions *)

Lemma afterAwait_calls parse (s : AppState) (o : Outcome) :
  calls (snd (afterAwait parse s o)) = [].
Proof.
  unfold afterAwait. destruct o as [payload|]; [|reflexivity].
  destruct (Response.success _); [|reflexivity].
  destruct (Response.metadata _); [|reflexivity].
  destruct (Response.summary _) as [[|? ?]|]; reflexivity.
Qed.

Lemma validateArxivUrl_not_blank (u : jsstring) :
  validateArxivUrl u = true -> trim u <> [].
Proof.
  intros H. now apply matches_shape_not_blank, validateArxivUrl_true.
Qed.

(** The three ways of [handleSubmit], by the input alone. *)
Lemma handleSubmit_cases parse (s : AppState) :
  (validateArxivUrl (url s) = true
   /\ handleSubmit parse s
      = Await (setLoading true (setPaperData None (setError [] s)))
          (lit "Summarize this arXiv paper: " ++ extractArxivId (url s))
          agentId
          (afterAwait parse
             (setLoading true (setPaperData None (setError [] s)))))
  \/ (validateArxivUrl (url s) = false
      /\ exists msg,
           msg <> []
           /\ handleSubmit parse s
              = Return (setError msg (setPaperData None (setError [] s)))).
Proof.
  destruct (validateArxivUrl (url s)) eqn:Hv.
  - left. split; [reflexivity|].
    now rewrite handleSubmit_valid by (auto using validateArxivUrl_not_blank).
  - right. split; [reflexivity|].
    destruct (list_eq_dec N.eq_dec (trim (url s)) []) as [Ht|Ht].
    + eexists. split; [|now apply handleSubmit_blank]. discriminate.
    + eexists. split; [|now apply handleSubmit_malformed]. discriminate.
Qed.

Lemma submit_calls_eq parse agent (s : AppState) :
  calls (snd (submit parse agent s))
  = if validateArxivUrl (url s)
    then [CallAIAgent
            (lit "Summarize this arXiv paper: " ++ extractArxivId (url s))
            agentId]
    else [].
Proof.
  unfold submit.
  destruct (handleSubmit_cases parse s) as [[-> ->] | [-> (msg & _ & ->)]];
    [|reflexivity].
  unfold run.
  pose proof (afterAwait_calls parse
                (setLoading true (setPaperData None (setError [] s)))
                (agent (lit "Summarize this arXiv paper: "
                        ++ extractArxivId (url s)) agentId)) as C.
  destruct (afterAwait parse _ _) as [s1 log]. simpl in *. now rewrite C.
Qed.

(** X5.  A submission makes a network call exactly when
    [validateArxivUrl] accepts the input as typed, and then exactly one; the
    test of the trimmed input never stops an input that validates. *)
Theorem submit_calls_iff_valid parse agent (s : AppState) :
  calls (snd (submit parse agent s))
  = (if validateArxivUrl (url s)
     then [CallAIAgent
             (lit "Summarize this arXiv paper: " ++ extractArxivId (url s))
             (lit "68f24d4e811f17edf77d460e")]
     else [])
  /\ (validateArxivUrl (url s) = true -> trim (url s) <> []).
Proof.
  split; [apply submit_calls_eq | apply validateArxivUrl_not_blank].
Qed.

Lemma submit_calls_iff_valid_witness :
  calls (snd (submit parseNothing (constantAgent Rejected)
                (setUrl (lit " arxiv.org/pdf/7 ") initialState)))
  = [CallAIAgent (lit "Summarize this arXiv paper: 7")
       (lit "68f24d4e811f17edf77d460e")]
  /\ trim (url (setUrl (lit " arxiv.org/pdf/7 ") initialState)) <> [].
Proof.
  destruct (@submit_calls_iff_valid parseNothing (constantAgent Rejected)
              (setUrl (lit " arxiv.org/pdf/7 ") initialState)) as [H1 H2].
  split; [exact H1 | apply H2; reflexivity].
Defined.

(** X6.  Whatever the input, the only text a submission sends to the
    collaborator is the fixed prefix followed by an identifier of digits,
    dots and [v], with the fixed agent identifier: nothing else of what the
    user typed leaves the component. *)
Theorem submit_prompt_is_identifier parse agent (s : AppState) msg a :
  In (CallAIAgent msg a) (snd (submit parse agent s)) ->
  a = lit "68f24d4e811f17edf77d460e"
  /\ exists id,
       msg = lit "Summarize this arXiv paper: " ++ id
       /\ id_shape id
       /\ Forall (fun c => is_id_char c = true) id.
Proof.
  intros H.
  assert (C : In (CallAIAgent msg a) (calls (snd (submit parse agent s))))
    by (apply filter_In; auto).
  rewrite submit_calls_eq in C.
  destruct (validateArxivUrl (url s)) eqn:Hv; [|destruct C].
  destruct C as [[= <- <-] | []]. split; [reflexivity|].
  exists (extractArxivId (url s)). split; [reflexivity|].
  assert (Hid : id_shape (extractArxivId (url s))).
  { unfold validateArxivUrl, test in Hv. unfold extractArxivId.
    destruct (exec arxivRegex (url s)) as [c|] eqn:X; [|discriminate].
    apply exec_arxiv_group in X as (pre & loc & id & post & Hs & _ & _ & ->).
    apply Hs. }
  split; [exact Hid | now apply id_shape_chars].
Qed.

Lemma submit_prompt_is_identifier_witness :
  lit "68f24d4e811f17edf77d460e" = lit "68f24d4e811f17edf77d460e"
  /\ exists id,
       lit "Summarize this arXiv paper: 1234.56789"
       = lit "Summarize this arXiv paper: " ++ id
       /\ id_shape id
       /\ Forall (fun c => is_id_char c = true) id.
Proof.
  apply (@submit_prompt_is_identifier parseNothing (constantAgent Rejected)
           (setUrl (lit "https://arxiv.org/abs/1234.56789?x=<script>")
              initialState)).
  left. reflexivity.
Defined.

(** X7.  The outcome of a submission does not depend on the error or the
    result left by an earlier one: two states with the same input (and the
    same [loading] flag) give the same final state and the same events. *)
Theorem submit_ignores_previous parse agent (s1 s2 : AppState) :
  url s1 = url s2 -> loading s1 = loading s2 ->
  submit parse agent s1 = submit parse agent s2.
Proof.
  intros Hu Hl. unfold submit. f_equal.
  destruct s1 as [u1 l1 e1 p1], s2 as [u2 l2 e2 p2]. simpl in Hu, Hl.
  subst. reflexivity.
Qed.

Lemma submit_ignores_previous_witness :
  submit parseNothing (constantAgent (Fulfilled (lit "?")))
    (setPaperData
       (Some {| Paper.metadata := sampleMetadata; Paper.summary := lit "old" |})
       (setUrl sampleUrl initialState))
  = submit parseNothing (constantAgent (Fulfilled (lit "?")))
      (setError (lit "old error") (setUrl sampleUrl initialState)).
Proof.
  apply submit_ignores_previous; reflexivity.
Defined.

(** X8.  A submission never changes the text of the input, whatever its
    outcome. *)
Theorem submit_keeps_url parse agent (s : AppState) :
  url (fst (submit parse agent s)) = url s.
Proof.
  unfold submit.
  destruct (handleSubmit_cases parse s) as [[_ ->] | [_ (msg & _ & ->)]];
    [|reflexivity].
  unfold run.
  pose proof (afterAwait_url parse
                (setLoading true (setPaperData None (setError [] s)))
                (agent (lit "Summarize this arXiv paper: "
                        ++ extractArxivId (url s)) agentId)) as U.
  destruct (afterAwait parse _ _) as [s1 log]. exact U.
Qed.

Lemma afterAwait_outcome parse (s : AppState) (o : Outcome) :
  paperData s = None -> error s = [] ->
  (paperData (fst (afterAwait parse s o)) = None
   /\ error (fst (afterAwait parse s o)) <> []
   /\ snd (afterAwait parse s o) = [])
  \/ (exists d,
        paperData (fst (afterAwait parse s o)) = Some d
        /\ error (fst (afterAwait parse s o)) = []
        /\ snd (afterAwait parse s o)
           = [ToastSuccess (lit "Paper summarized successfully")]).
Proof.
  intros Hp He. unfold afterAwait.
  destruct o as [payload|]; simpl.
  2:{ left. repeat split; [exact Hp | discriminate]. }
  destruct (Response.success _); simpl.
  2:{ left. repeat split; [exact Hp|].
      destruct (Response.error _) as [[|? ?]|]; discriminate. }
  destruct (Response.metadata _) as [md|]; simpl.
  2:{ left. repeat split; [exact Hp|].
      destruct (Response.error _) as [[|? ?]|]; discriminate. }
  destruct (Response.summary _) as [[|c sm]|]; simpl.
  - left. repeat split; [exact Hp|].
    destruct (Response.error _) as [[|? ?]|]; discriminate.
  - right. eexists. repeat split. exact He.
  - left. repeat split; [exact Hp|].
    destruct (Response.error _) as [[|? ?]|]; discriminate.
Qed.

Lemma submit_outcome parse agent (s : AppState) :
  (paperData (fst (submit parse agent s)) = None
   /\ error (fst (submit parse agent s)) <> []
   /\ filter (fun e => negb (is_call e)) (snd (submit parse agent s)) = [])
  \/ (exists d,
        paperData (fst (submit parse agent s)) = Some d
        /\ error (fst (submit parse agent s)) = []
        /\ loading (fst (submit parse agent s)) = false
        /\ filter (fun e => negb (is_call e)) (snd (submit parse agent s))
           = [ToastSuccess (lit "Paper summarized successfully")]).
Proof.
  unfold submit.
  destruct (handleSubmit_cases parse s) as [[_ ->] | [_ (msg & Hm & ->)]].
  - unfold run.
    pose proof (afterAwait_outcome parse
                  (setLoading true (setPaperData None (setError [] s)))
                  (agent (lit "Summarize this arXiv paper: "
                          ++ extractArxivId (url s)) agentId)
                  eq_refl eq_refl) as O.
    pose proof (afterAwait_loading parse
                  (setLoading true (setPaperData None (setError [] s)))
                  (agent (lit "Summarize this arXiv paper: "
                          ++ extractArxivId (url s)) agentId)) as L.
    destruct (afterAwait parse _ _) as [s1 log]. simpl in *.
    destruct O as [(Hp & He & ->) | (d & Hp & He & ->)].
    + left. auto.
    + right. exists d. auto.
  - left. simpl. auto.
Qed.

(** X9.  Every submission ends with exactly one of an error message and a
    result: either no result and a non-empty error, or a result and no
    error.  The request state it ends in is never [Idle]. *)
Theorem submit_error_xor_result parse agent (s : AppState) :
  ((paperData (fst (submit parse agent s)) = None
    /\ error (fst (submit parse agent s)) <> [])
   \/ (exists d,
         paperData (fst (submit parse agent s)) = Some d
         /\ error (fst (submit parse agent s)) = []))
  /\ requestState (fst (submit parse agent s)) <> Idle.
Proof.
  destruct (submit_outcome parse agent s)
    as [(Hp & He & _) | (d & Hp & He & _)].
  - split; [left; auto|]. unfold requestState. rewrite Hp.
    destruct (loading _); [discriminate|].
    destruct (error _); [congruence | discriminate].
  - split; [right; eauto|]. unfold requestState. rewrite Hp.
    destruct (loading _); discriminate.
Qed.

(** X10.  The toast "Paper summarized successfully" is shown exactly when
    the submission ends with a result, and a submission shows no other
    toast. *)
Theorem submit_toast_iff_result parse agent (s : AppState) :
  filter (fun e => negb (is_call e)) (snd (submit parse agent s))
  = match paperData (fst (submit parse agent s)) with
    | Some _ => [ToastSuccess (lit "Paper summarized successfully")]
    | None => []
    end.
Proof.
  destruct (submit_outcome parse agent s)
    as [(Hp & _ & ->) | (d & Hp & _ & _ & ->)]; now rewrite Hp.
Qed.

(** ** The view over the states the component can reach *)

Lemma ui_reachable_invariant parse (s : AppState) :
  ui_reachable parse s ->
  (loading s = true ->
   error s = [] /\ paperData s = None /\ validateArxivUrl (url s) = true)
  /\ (error s <> [] -> paperData s = None)
  /\ (forall d, paperData s = Some d -> Paper.summary d <> []).
Proof.
  induction 1 as [|v s _ IH Hl|s s' _ _ Hl E|s s' msg a k _ _ Hl E
                 |s s' msg a k o _ _ Hl E].
  - split; [discriminate|]. split; [reflexivity | discriminate].
  - destruct IH as (I1 & I2 & I3). simpl.
    split; [congruence|]. split; [exact I2 | exact I3].
  - destruct (handleSubmit_cases parse s) as [[_ X] | [_ (m' & _ & X)]];
      rewrite X in E; [discriminate|]. injection E as <-. simpl.
    split; [congruence|]. split; [reflexivity | discriminate].
  - destruct (handleSubmit_cases parse s) as [[Hv X] | [_ (m' & _ & X)]];
      rewrite X in E; [|discriminate]. injection E as <- _ _ _. simpl.
    split; [auto|]. split; [reflexivity | discriminate].
  - destruct (handleSubmit_cases parse s) as [[Hv X] | [_ (m' & _ & X)]];
      rewrite X in E; [|discriminate]. injection E as _ _ _ <-.
    pose proof (afterAwait_loading parse
                  (setLoading true (setPaperData None (setError [] s))) o) as L.
    split; [congruence|]. split.
    + destruct (afterAwait_outcome parse
                  (setLoading true (setPaperData None (setError [] s))) o
                  eq_refl eq_refl) as [(Hp & _) | (d & _ & He & _)];
        [auto | congruence].
    + intros d' Hd'.
      apply afterAwait_paperData in Hd' as (_ & _ & _ & _ & _ & Hne);
        [exact Hne | reflexivity].
Qed.

(** X11.  In every state the component reaches through its view, at most
    one of the three indicators is on: while the form is disabled (the
    request is in flight) neither the alert nor the result card is shown and
    the input holds a URL that validated; the alert and the card are never
    shown together; and a card that is shown has a non-empty summary. *)
Theorem view_indicators_exclusive parse formatDate (s : AppState) :
  ui_reachable parse s ->
  (inputDisabled (render formatDate s) = true ->
   alert (render formatDate s) = None
   /\ card (render formatDate s) = None
   /\ validateArxivUrl (inputValue (render formatDate s)) = true)
  /\ (alert (render formatDate s) <> None -> card (render formatDate s) = None)
  /\ (forall c, card (render formatDate s) = Some c -> cardSummary c <> []).
Proof.
  intros H. apply ui_reachable_invariant in H as (I1 & I2 & I3).
  unfold render; simpl. split; [|split].
  - intros Hl. destruct (I1 Hl) as (-> & -> & Hv). auto.
  - intros Ha. destruct (error s) as [|c e]; [now contradiction Ha|].
    rewrite I2 by discriminate. reflexivity.
  - intros c Hc. destruct (paperData s) as [d|]; [|discriminate].
    injection Hc as <-. simpl. now apply I3.
Qed.

Lemma view_indicators_exclusive_witness :
  alert (render (fun d => d)
           (setLoading true (setUrl sampleUrl initialState))) = None
  /\ card (render (fun d => d)
             (setLoading true (setUrl sampleUrl initialState))) = None
  /\ validateArxivUrl
       (inputValue
          (render (fun d => d)
             (setLoading true (setUrl sampleUrl initialState)))) = true.
Proof.
  apply (proj1 (@view_indicators_exclusive parseNothing (fun d => d)
                  (setLoading true (setUrl sampleUrl initialState))
                  (@ui_await parseNothing (setUrl sampleUrl initialState)
                     (setLoading true (setUrl sampleUrl initialState))
                     (lit "Summarize this arXiv paper: 1234.56789") agentId
                     (afterAwait parseNothing
                        (setLoading true (setUrl sampleUrl initialState)))
                     (ui_type sampleUrl (ui_initial parseNothing) eq_refl)
                     eq_refl eq_refl))).
  reflexivity.
Defined.


